(** * The SITL sailboat model (libraries/SITL/SIM_Sailboat.cpp)

    A shallow embedding of the sailboat simulator: the lift and drag
    computation, the steering kinematics, the wave generator, the heel
    torque balance and the per-step integrator [Sailboat::update].

    The sources hold two versions of SIM_Sailboat.cpp.  The first one
    (module [V1]) scales the sail forces with the air density and
    integrates a heel torque; the second one (module [V2]) uses "quasi
    units" and overwrites the roll angle with a bounded heel angle.  The
    functions that are the same text in both versions ([get_turn_circle],
    [get_yaw_rate], [get_lat_accel], [update_wave], the two coefficient
    tables) are embedded once.

    Numbers: a C [float] is read as a real number (type [R]), so every
    operation is the exact one; servo outputs ([uint16_t]) and the frame
    time are integers ([Z]).  The attitude matrix ([Matrix3f]) and the
    methods of the [Aircraft] base class are not part of the sources: the
    model takes them as interfaces ([Matrix3f_ops], [Aircraft_ops]) and the
    theorems hold for every implementation of them. *)

From Stdlib Require Import Reals Lra Lia ZArith List Bool String Sorted.
Import ListNotations.

Local Open Scope R_scope.

(** * AP_Math: scalar helpers

    AP_Math.h is not in the sources.  The conversions and clamps below
    ([radians], [degrees], [sq], [constrain_float], [constrain_int16],
    [safe_sqrt]) have their usual meaning; the helpers on which a property
    depends say so one by one. *)

(** <cfloat>: the machine epsilon of an IEEE single, 2^-23. *)
Definition FLT_EPSILON : R := / 8388608.

Definition M_PI : R := PI.
Definition M_2PI : R := 2 * PI.
Definition DEG_TO_RAD : R := M_PI / 180.
Definition RAD_TO_DEG : R := 180 / M_PI.
Definition GRAVITY_MSS : R := 9.80665.

Definition radians (deg : R) : R := deg * DEG_TO_RAD.
Definition degrees (rad : R) : R := rad * RAD_TO_DEG.
Definition sq (v : R) : R := v * v.

Definition Rltb (a b : R) : bool := if Rlt_dec a b then true else false.
Definition Rleb (a b : R) : bool := if Rle_dec a b then true else false.

(** Modelled from the spec: [is_zero] of AP_Math.h is not in the sources;
    the spec calls its argument "(numerically) zero": the magnitude is
    below the machine epsilon. *)
Definition is_zero (v : R) : bool := Rltb (Rabs v) FLT_EPSILON.

(** Modelled from the spec: [is_negative] of AP_Math.h is not in the
    sources, and the spec only speaks of the sign; it is taken as the
    counterpart of [is_zero] on the negative side: at most minus the
    machine epsilon. *)
Definition is_negative (v : R) : bool := Rleb v (- FLT_EPSILON).

(** Modelled from the spec: [signum] is not in the sources; the spec writes
    "sign": 1, -1 or 0. *)
Definition signum (v : R) : R :=
  if Rltb 0 v then 1 else if Rltb v 0 then -1 else 0.

(** The macro MAX(a,b) ((a)>(b)?(a):(b)). *)
Definition MAX (a b : R) : R := if Rltb b a then a else b.

Definition constrain_float (amt low high : R) : R :=
  if Rltb amt low then low else if Rltb high amt then high else amt.

(** [constrain_int16] takes an [int16_t]: the [uint16_t] servo value is
    converted first. *)
Definition to_int16 (v : Z) : Z := ((v + 32768) mod 65536 - 32768)%Z.

Definition constrain_int16 (amt low high : Z) : Z :=
  let a := to_int16 amt in
  if (a <? low)%Z then low else if (high <? a)%Z then high else a.

Definition safe_sqrt (v : R) : R := sqrt v.

(** libm's [atan2], by quadrant. *)
Definition atan2 (y x : R) : R :=
  if Rltb 0 x then atan (y / x)
  else if Rltb x 0 then
    (if Rltb y 0 then atan (y / x) - PI else atan (y / x) + PI)
  else if Rltb 0 y then PI / 2
  else if Rltb y 0 then - (PI / 2)
  else 0.

(** Modelled from the spec: the wrap functions of AP_Math are not in the
    sources; "wrap into [0, 2 pi)", "normalized to [-180,180]": the
    representative of the angle modulo a full turn in that range.  This is
    the exact wrap over the reals; how a single precision wrap rounds next
    to the ends of the range is not modelled. *)
Definition wrap_period (period v : R) : R :=
  v - period * IZR (Int_part (v / period)).

Definition wrap_360 (angle : R) : R := wrap_period 360 angle.

Definition wrap_180 (angle : R) : R :=
  let res := wrap_360 angle in
  if Rltb 180 res then res - 360 else res.

Definition wrap_2PI (radian : R) : R := wrap_period M_2PI radian.

Definition wrap_PI (radian : R) : R :=
  let res := wrap_2PI radian in
  if Rltb M_PI res then res - M_2PI else res.

(** * AP_Math: vectors *)

Module Vector3f.
Record t : Type := mk { x : R; y : R; z : R }.

(** Modelled from the spec: vector3.h is not in the sources; a default
    constructed vector has its three components zero (the tide velocity
    of the spec is computed "when armed and nonzero" only). *)
Definition zero : t := mk 0 0 0.

Definition add (a b : t) : t := mk (x a + x b) (y a + y b) (z a + z b).
Definition sub (a b : t) : t := mk (x a - x b) (y a - y b) (z a - z b).
Definition scale (a : t) (k : R) : t := mk (x a * k) (y a * k) (z a * k).
Definition div (a : t) (k : R) : t := mk (x a / k) (y a / k) (z a / k).
Definition set_x (a : t) (v : R) : t := mk v (y a) (z a).
Definition set_y (a : t) (v : R) : t := mk (x a) v (z a).
Definition set_z (a : t) (v : R) : t := mk (x a) (y a) v.
End Vector3f.

Abbreviation Vector3f := Vector3f.t.

(** A point of a coefficient curve: { angle in degrees, coefficient }. *)
Definition Vector2F : Type := (R * R)%type.

(** Modelled from the spec: [linear_interpolate] over a table of points is
    not in the sources.  "Piecewise-linear interpolation between the two
    bracketing breakpoints"; below the first breakpoint the first
    coefficient; "at or above the last breakpoint, return the last
    tabulated value". *)
Fixpoint linear_interpolate (v : R) (curve : list Vector2F) : R :=
  match curve with
  | [] => 0
  | (a0, c0) :: rest =>
      if Rleb v a0 then c0
      else match rest with
           | [] => c0
           | (a1, c1) :: _ =>
               if Rltb v a1 then c0 + (c1 - c0) * ((v - a0) / (a1 - a0))
               else linear_interpolate v rest
           end
  end.

(** * The coefficient curves (the same in both versions) *)

(** vector of { angle in degrees, CL } *)
Definition CL_curve : list Vector2F :=
  [ (0, 0); (10, 0.5); (20, 1); (30, 1.1); (40, 0.95); (50, 0.75);
    (60, 0.6); (70, 0.4); (80, 0.2); (90, 0);
    (100, -0.2); (110, -0.4); (120, -0.6); (130, -0.75); (140, -0.95);
    (150, -1.1); (160, -1); (170, -0.5) ].

(** vector of { angle in degrees, CD } *)
Definition CD_curve : list Vector2F :=
  [ (0, 0.1); (10, 0.1); (20, 0.2); (30, 0.4); (40, 0.8); (50, 1.2);
    (60, 1.5); (70, 1.7); (80, 1.9); (90, 1.95);
    (100, 1.9); (110, 1.7); (120, 1.5); (130, 1.2); (140, 0.8);
    (150, 0.4); (160, 0.2); (170, 0.1) ].

(** * Inputs, configuration and state *)

Definition STEERING_SERVO_CH : nat := 0.
Definition MAINSAIL_SERVO_CH : nat := 3.
Definition THROTTLE_SERVO_CH : nat := 2.
Definition DIRECT_WING_SERVO_CH : nat := 4.

Definition WAVE_ANGLE_GAIN : R := 1.
Definition WAVE_HEAVE_GAIN : R := 1.

(** [struct sitl_input]: the servo outputs, and the wind request that only
    [update_wind] reads. *)
Record wind_input : Type := mk_wind_input {
  wind_speed : R;
  wind_direction : R;
  wind_turbulence : R;
  wind_dir_z : R
}.

Record sitl_input : Type := mk_sitl_input {
  servos : list Z;
  wind : wind_input
}.

(** [input.servos[ch]], as a number.  The array of the source has a fixed
    size and [update] reads the channels 0, 2, 3 and 4 only; an entry that
    the list does not have reads as 0. *)
Definition servo (input : sitl_input) (ch : nat) : Z :=
  nth ch (servos input) 0%Z.

Inductive Sail_type : Type :=
  | mainsail_with_sheet
  | directly_actuated_wing.

(** The value of the parameter as the second version compares it
    ([sail_type.get() == 1] is the directly actuated wing). *)
Definition Sail_type_get (s : Sail_type) : Z :=
  match s with
  | mainsail_with_sheet => 0
  | directly_actuated_wing => 1
  end.

(** The parameter groups [sitl->wave] and [sitl->tide]. *)
Module Wave.
Record t : Type := mk {
  enable : Z;
  direction : R;
  speed : R;
  length : R;
  amp : R
}.
End Wave.

Module Tide.
Record t : Type := mk {
  direction : R;
  speed : R
}.
End Tide.

Record SITL : Type := mk_SITL {
  wave : Wave.t;
  tide : Tide.t;
  sail_type : Sail_type
}.

(** The ambient environment of a run: the parameters read through [sitl]
    and the armed state ([hal.util->get_soft_armed()]). *)
Record Env : Type := mk_Env {
  sitl : SITL;
  get_soft_armed : bool
}.

(** The interface of the attitude matrix [Matrix3f]. *)
Class Matrix3f_ops (M : Type) : Type := {
  to_euler : M -> R * R * R;
  from_euler : R -> R -> R -> M;
  mul_transpose : M -> Vector3f -> Vector3f;
  transposed : M -> M;
  mul_vector : M -> Vector3f -> Vector3f;
  rotate : M -> Vector3f -> M;
  normalize : M -> M
}.

(** The members of [Aircraft] that the sailboat reads or writes; [other]
    is the rest of the base class (location, time, magnetic field, ...),
    which only the base class methods touch. *)
Record Aircraft (M X : Type) : Type := mk_Aircraft {
  dcm : M;
  gyro : Vector3f;
  accel_body : Vector3f;
  velocity_ef : Vector3f;
  velocity_ef_water : Vector3f;
  wind_ef : Vector3f;
  position : Vector3f;
  rpm0 : R;
  airspeed_pitot : R;
  mass : R;
  frame_time_us : Z;
  other : X
}.

Arguments mk_Aircraft {M X}.
Arguments dcm {M X}.
Arguments gyro {M X}.
Arguments accel_body {M X}.
Arguments velocity_ef {M X}.
Arguments velocity_ef_water {M X}.
Arguments wind_ef {M X}.
Arguments position {M X}.
Arguments rpm0 {M X}.
Arguments airspeed_pitot {M X}.
Arguments mass {M X}.
Arguments frame_time_us {M X}.
Arguments other {M X}.

(** The methods of the base class that [update] calls. *)
Class Aircraft_ops (M X : Type) : Type := {
  update_wind : Env -> sitl_input -> Aircraft M X -> Aircraft M X;
  update_position : Env -> Aircraft M X -> Aircraft M X;
  time_advance : Env -> Aircraft M X -> Aircraft M X;
  update_mag_field_bf : Env -> Aircraft M X -> Aircraft M X
}.

(** [class Sailboat : public Aircraft]. *)
Record Sailboat (M X : Type) : Type := mk_Sailboat {
  base : Aircraft M X;
  steering_angle_max : R;
  turning_circle : R;
  sail_area : R;
  motor_connected : bool;
  wave_gyro : Vector3f;
  wave_heave : R;
  wave_phase : R
}.

Arguments mk_Sailboat {M X}.
Arguments base {M X}.
Arguments steering_angle_max {M X}.
Arguments turning_circle {M X}.
Arguments sail_area {M X}.
Arguments motor_connected {M X}.
Arguments wave_gyro {M X}.
Arguments wave_heave {M X}.
Arguments wave_phase {M X}.

Definition set_wave {M X : Type} (s : Sailboat M X)
    (g : Vector3f) (heave phase : R) : Sailboat M X :=
  mk_Sailboat (base s) (steering_angle_max s) (turning_circle s)
    (sail_area s) (motor_connected s) g heave phase.

Definition set_base {M X : Type} (s : Sailboat M X)
    (b : Aircraft M X) : Sailboat M X :=
  mk_Sailboat b (steering_angle_max s) (turning_circle s)
    (sail_area s) (motor_connected s) (wave_gyro s) (wave_heave s)
    (wave_phase s).

(** * Steering kinematics (the same in both versions) *)

(** return turning circle (diameter) in meters for steering proportion in
    the range -1 to +1 *)
Definition get_turn_circle {M X : Type} (s : Sailboat M X) (steering : R) : R :=
  if is_zero steering then 0
  else turning_circle s * sin (radians (steering_angle_max s))
       / sin (radians (steering * steering_angle_max s)).

(** return yaw rate in deg/sec given a steering input (in the range -1 to
    +1) and speed in m/s *)
Definition get_yaw_rate {M X : Type} (s : Sailboat M X) (steering speed : R) : R :=
  if is_zero steering || is_zero speed then 0
  else
    let d_m := get_turn_circle s steering in
    let c_m := M_PI * d_m in
    let t_s := c_m / speed in
    let yaw_rate_deg_per_sec := 360 / t_s in
    yaw_rate_deg_per_sec.

(** return lateral acceleration in m/s/s given a steering input (in the
    range -1 to +1) and speed in m/s *)
Definition get_lat_accel {M X : Type} (s : Sailboat M X) (steering speed : R) : R :=
  let yaw_rate := get_yaw_rate s steering speed in
  let accel := radians yaw_rate * speed in
  accel.

(** The same three functions with every division checked: [None] is a
    division by zero. *)
Module Checked.

Definition div (a b : R) : option R :=
  if Req_dec_T b 0 then None else Some (a / b).

Definition bind {A B : Type} (m : option A) (k : A -> option B) : option B :=
  match m with
  | Some a => k a
  | None => None
  end.

Notation "x <- m ;; k" := (bind m (fun x => k))
  (at level 61, m at next level, right associativity).

Definition get_turn_circle {M X : Type} (s : Sailboat M X)
    (steering : R) : option R :=
  if is_zero steering then Some 0
  else div (turning_circle s * sin (radians (steering_angle_max s)))
           (sin (radians (steering * steering_angle_max s))).

Definition get_yaw_rate {M X : Type} (s : Sailboat M X)
    (steering speed : R) : option R :=
  if is_zero steering || is_zero speed then Some 0
  else
    d_m <- get_turn_circle s steering ;;
    let c_m := M_PI * d_m in
    t_s <- div c_m speed ;;
    yaw_rate_deg_per_sec <- div 360 t_s ;;
    Some yaw_rate_deg_per_sec.

Definition get_lat_accel {M X : Type} (s : Sailboat M X)
    (steering speed : R) : option R :=
  yaw_rate <- get_yaw_rate s steering speed ;;
  let accel := radians yaw_rate * speed in
  Some accel.

End Checked.

(** * Waves (the same in both versions) *)

(** The test that switches the waves off: "if not armed don't do waves, to
    allow gyro init". *)
Definition waves_off (env : Env) : bool :=
  (Wave.enable (wave (sitl env)) =? 0)%Z
  || negb (get_soft_armed env)
  || is_zero (Wave.amp (wave (sitl env))).

(** simulate basic waves / swell *)
Definition update_wave {M X : Type} `{Matrix3f_ops M}
    (env : Env) (delta_time : R) (s : Sailboat M X) : Sailboat M X :=
  let wave_heading := Wave.direction (wave (sitl env)) in
  let wave_speed := Wave.speed (wave (sitl env)) in
  let wave_length := Wave.length (wave (sitl env)) in
  let wave_amp := Wave.amp (wave (sitl env)) in
  let '(r, p, y) := to_euler (dcm (base s)) in
  let velocity_ef := velocity_ef (base s) in
  if waves_off env then
    set_wave s
      (Vector3f.scale (Vector3f.mk (- r) (- p) 0) WAVE_ANGLE_GAIN)
      (- Vector3f.z velocity_ef * WAVE_HEAVE_GAIN)
      0
  else
    let boat_speed :=
      Vector3f.x velocity_ef * sin (radians wave_heading)
      + Vector3f.y velocity_ef * cos (radians wave_heading) in
    let apparent_wave_distance := (wave_speed - boat_speed) * delta_time in
    let apparent_wave_phase_change :=
      (apparent_wave_distance / wave_length) * M_2PI in
    let wave_phase := wave_phase s + apparent_wave_phase_change in
    let wave_phase := wrap_2PI wave_phase in
    let wave_slope :=
      (wave_amp * 0.5) * (M_2PI / wave_length) * cos wave_phase in
    let wave_angle := atan wave_slope in
    let heading_dif := wave_heading - y in
    let angle_error_x := (sin heading_dif * wave_angle) - r in
    let angle_error_y := (cos heading_dif * wave_angle) - p in
    let wave_gyro :=
      Vector3f.mk (angle_error_x * WAVE_ANGLE_GAIN)
                  (angle_error_y * WAVE_ANGLE_GAIN) 0 in
    let wave_heave :=
      if (Wave.enable (wave (sitl env)) =? 2)%Z
      then (wave_slope - Vector3f.z velocity_ef) * WAVE_HEAVE_GAIN
      else 0 in
    set_wave s wave_gyro wave_heave wave_phase.

(** * Pieces of [update] that are the same in both versions *)

(** The local variables of the sail force computation of one step. *)
Record SailForces : Type := mk_SailForces {
  wind_apparent_dir_bf : R;
  wind_apparent_speed : R;
  aoa_deg : R;
  lift_wf : R;
  drag_wf : R;
  force_fwd : R;
  force_heel : R
}.

(** steering input -1 to 1 *)
Definition steering_of (input : sitl_input) : R :=
  2 * (IZR (servo input STEERING_SERVO_CH - 1000) / 1000 - 0.5).

(** throttle force (for motor sailing) *)
Definition throttle_force_of {M X : Type} (s : Sailboat M X)
    (input : sitl_input) : R :=
  if motor_connected s then
    let throttle_out :=
      constrain_int16 (servo input THROTTLE_SERVO_CH) 1000 2000 in
    IZR (throttle_out - 1500) * 0.1
  else 0.

(** tide calcs: [tide_velocity_ef] is default constructed, and assigned
    only when armed with a tide. *)
Definition tide_velocity_ef (env : Env) : Vector3f :=
  let tide_velocity_ef := Vector3f.zero in
  if get_soft_armed env && negb (is_zero (Tide.speed (tide (sitl env)))) then
    let tide_velocity_ef :=
      Vector3f.set_x tide_velocity_ef
        (- cos (radians (Tide.direction (tide (sitl env))))
         * Tide.speed (tide (sitl env))) in
    let tide_velocity_ef :=
      Vector3f.set_y tide_velocity_ef
        (- sin (radians (Tide.direction (tide (sitl env))))
         * Tide.speed (tide (sitl env))) in
    Vector3f.set_z tide_velocity_ef 0
  else tide_velocity_ef.

(** The calls that end [update]: update lat/lon/altitude, advance the
    time, update the magnetic field, update the wave calculations. *)
Definition finish_step {M X : Type} `{Matrix3f_ops M} `{Aircraft_ops M X}
    (env : Env) (delta_time : R) (s : Sailboat M X) : Sailboat M X :=
  let b := update_position env (base s) in
  let b := time_advance env b in
  let b := update_mag_field_bf env b in
  update_wave env delta_time (set_base s b).

(** * The first version: air density and heel torque *)

Module V1.

(** The constructor: [Aircraft(frame_str)] gives the base object, the
    wave members are those of the fresh object. *)
Definition construct {M X : Type} (frame_str : string) (a : Aircraft M X)
    (g : Vector3f) (heave phase : R) : Sailboat M X :=
  let a :=
    mk_Aircraft (dcm a) (gyro a) (accel_body a) (velocity_ef a)
      (velocity_ef_water a) (wind_ef a) (position a) (rpm0 a)
      (airspeed_pitot a) 4 (frame_time_us a) (other a) in
  mk_Sailboat a 35 1.8 1.5 (String.eqb frame_str "sailboat-motor")
    g heave phase.

(** The variables of the unnamed namespace above [update]; [printed] is
    what [printf] has written. *)
Record Statics : Type := mk_Statics {
  last_print_time_s : R;
  update_time_s : R;
  printed : list R
}.

(** Calculate the lift and drag given an apparent wind speed in m/s and
    angle-of-attack in degrees; returns (lift, drag). *)
Definition calc_lift_and_drag {M X : Type} (s : Sailboat M X)
    (wind_speed_m_per_s angle_of_attack_deg : R) : R * R :=
  let signed_aoa_deg := wrap_180 angle_of_attack_deg in
  let abs_aoa_deg := Rabs signed_aoa_deg in
  let cl := linear_interpolate abs_aoa_deg CL_curve in
  let cd := linear_interpolate abs_aoa_deg CD_curve in
  let air_density_kg_per_m3 := 1.225 in
  let common_coefficient :=
    1 / 2 * air_density_kg_per_m3 * sq wind_speed_m_per_s * sail_area s in
  let drag := cd * common_coefficient in
  let lift := cl * common_coefficient * signum signed_aoa_deg in
  (lift, drag).

(** return a heel angular acceleration in rad.s-2 *)
Definition get_heel_angular_acceleration (env : Env)
    (force_heel current_roll_angle_bf_rad current_roll_rate_rad_per_s : R)
    : R :=
  if negb (get_soft_armed env) then 0
  else
    let vertical_ce := 200 in
    let keel_mass := 2.5 in
    let keel_depth := 0.5 in
    let keel_chord := 0.1 in
    let g := 1 in
    let overturning_moment :=
      force_heel * vertical_ce * cos current_roll_angle_bf_rad in
    let righting_moment :=
      -1 * keel_mass * g * keel_depth * sin current_roll_angle_bf_rad in
    let kDamping := 1 in
    let damping_moment :=
      -1 * sq keel_depth * keel_chord * current_roll_rate_rad_per_s
      * kDamping in
    let resultant := overturning_moment + righting_moment + damping_moment in
    let kMomentOfInertia := 300 in
    let moment_of_inertia := keel_mass * sq keel_depth * kMomentOfInertia in
    resultant / moment_of_inertia.

(** mainsail angle in body frame degrees; the assertion of the second
    branch ([sail_type == Sail_type::mainsail_with_sheet]) holds by the
    type [Sail_type]. *)
Definition get_mainsail_angle_bf (env : Env) (input : sitl_input) : R :=
  match sail_type (sitl env) with
  | directly_actuated_wing =>
      constrain_float
        (IZR (servo input DIRECT_WING_SERVO_CH - 1500) / 500 * 90) (-90) 90
  | mainsail_with_sheet =>
      constrain_float
        (IZR (servo input MAINSAIL_SERVO_CH - 1000) / 1000 * 90) 0 90
  end.

(** sail angle of attack *)
Definition angle_of_attack (env : Env)
    (wind_apparent_dir_bf_signed mainsail_angle_bf : R) : R :=
  match sail_type (sitl env) with
  | directly_actuated_wing =>
      wind_apparent_dir_bf_signed - mainsail_angle_bf
  | mainsail_with_sheet =>
      MAX (Rabs wind_apparent_dir_bf_signed - mainsail_angle_bf) 0
      * signum wind_apparent_dir_bf_signed
  end.

(** The sail forces of a step, from the apparent wind to the forces in
    body frame; [s] is the boat after [update_wind]. *)
Definition sail_forces {M X : Type} `{Matrix3f_ops M}
    (env : Env) (input : sitl_input) (s : Sailboat M X) : SailForces :=
  let b := base s in
  let wind_apparent_ef := Vector3f.sub (velocity_ef b) (wind_ef b) in
  let wind_apparent_bf := mul_transpose (dcm b) wind_apparent_ef in
  let wind_apparent_dir_bf_signed :=
    wrap_180 (degrees (atan2 (Vector3f.y wind_apparent_bf)
                             (Vector3f.x wind_apparent_bf))) in
  let wind_apparent_speed_bf :=
    safe_sqrt (sq (Vector3f.y wind_apparent_bf)
               + sq (Vector3f.x wind_apparent_bf)) in
  let mainsail_angle_bf := get_mainsail_angle_bf env input in
  let aoa_deg :=
    angle_of_attack env wind_apparent_dir_bf_signed mainsail_angle_bf in
  let '(lift_wf, drag_wf) :=
    calc_lift_and_drag s wind_apparent_speed_bf aoa_deg in
  let sin_rot_rad := sin (radians wind_apparent_dir_bf_signed) in
  let cos_rot_rad := cos (radians wind_apparent_dir_bf_signed) in
  let force_fwd := lift_wf * sin_rot_rad - drag_wf * cos_rot_rad in
  let force_heel := lift_wf * cos_rot_rad + drag_wf * sin_rot_rad in
  mk_SailForces wind_apparent_dir_bf_signed wind_apparent_speed_bf
    aoa_deg lift_wf drag_wf force_fwd force_heel.

(** [update], up to the new position vector: the boat and the statics
    after the step, and the time step for the wave update. *)
Definition step {M X : Type} `{Matrix3f_ops M} `{Aircraft_ops M X}
    (env : Env) (input : sitl_input) (s : Sailboat M X) (st : Statics)
    : Sailboat M X * Statics * R :=
  (* update wind *)
  let s := set_base s (update_wind env input (base s)) in
  let b := base s in
  let steering := steering_of input in
  let f := sail_forces env input s in
  (* set RPM and airspeed from wind speed *)
  let rpm0 := wind_apparent_speed f in
  let airspeed_pitot := wind_apparent_speed f in
  (* how much time has passed? *)
  let delta_time := IZR (frame_time_us b) * 1.0e-6 in
  let update_time_s := update_time_s st + delta_time in
  (* speed in m/s in body frame *)
  let velocity_body := mul_vector (transposed (dcm b)) (velocity_ef_water b) in
  (* create a vertical component representing a keel *)
  let keel_ef := Vector3f.mk 0 0 1 in
  let keel_bf := mul_transpose (dcm b) keel_ef in
  let heelAngle_rad :=
    wrap_PI (atan2 (Vector3f.y keel_bf) (Vector3f.z keel_bf)) in
  let st :=
    if Rltb 1 (update_time_s - last_print_time_s st) then
      mk_Statics update_time_s update_time_s
        (printed st ++ [degrees heelAngle_rad])
    else mk_Statics (last_print_time_s st) update_time_s (printed st) in
  (* speed along x axis, +ve is forward *)
  let speed := Vector3f.x velocity_body in
  (* yaw rate in degrees/s *)
  let yaw_rate := get_yaw_rate s steering speed in
  let roll_rate :=
    Vector3f.x (gyro b)
    - get_heel_angular_acceleration env (force_heel f) heelAngle_rad
        (Vector3f.x (gyro b)) * delta_time in
  let gyro :=
    Vector3f.add (Vector3f.mk roll_rate 0 (radians yaw_rate)) (wave_gyro s) in
  (* update attitude *)
  let dcm := rotate (dcm b) (Vector3f.scale gyro delta_time) in
  let dcm := normalize dcm in
  (* hull drag *)
  let hullDragGain := 0.5 in
  let hull_drag := sq speed * mass b * hullDragGain * signum speed in
  let throttle_force := throttle_force_of s input in
  (* accel in body frame *)
  let accel_body :=
    Vector3f.mk ((throttle_force + force_fwd f) - hull_drag) 0 0 in
  let accel_body := Vector3f.div accel_body (mass b) in
  (* add in accel due to direction change *)
  let accel_body :=
    Vector3f.set_y accel_body
      (Vector3f.y accel_body + radians yaw_rate * speed) in
  (* now in earth frame; remove roll and pitch effects from waves *)
  let '(r, p, y) := to_euler dcm in
  let temp_dcm := from_euler 0 0 y in
  let accel_earth := mul_vector temp_dcm accel_body in
  (* we are on the ground, so our vertical accel is zero *)
  let accel_earth := Vector3f.set_z accel_earth (0 + wave_heave s) in
  (* acceleration as seen by the accelerometers *)
  let accel_body :=
    mul_vector (transposed dcm)
      (Vector3f.add accel_earth (Vector3f.mk 0 0 (- GRAVITY_MSS))) in
  (* tide calcs *)
  let tide_velocity_ef := tide_velocity_ef env in
  (* new velocity vector *)
  let velocity_ef_water :=
    Vector3f.add (velocity_ef_water b) (Vector3f.scale accel_earth delta_time) in
  let velocity_ef := Vector3f.add velocity_ef_water tide_velocity_ef in
  (* new position vector *)
  let position :=
    Vector3f.add (position b) (Vector3f.scale velocity_ef delta_time) in
  let b :=
    mk_Aircraft dcm gyro accel_body velocity_ef velocity_ef_water
      (wind_ef b) position rpm0 airspeed_pitot (mass b) (frame_time_us b)
      (other b) in
  (set_base s b, st, delta_time).

(** update the sailboat simulation by one time step *)
Definition update {M X : Type} `{Matrix3f_ops M} `{Aircraft_ops M X}
    (env : Env) (input : sitl_input) (sst : Sailboat M X * Statics)
    : Sailboat M X * Statics :=
  let '(s, st, delta_time) := step env input (fst sst) (snd sst) in
  (finish_step env delta_time s, st).

(** A run: one [update] per control input snapshot, in order. *)
Definition run {M X : Type} `{Matrix3f_ops M} `{Aircraft_ops M X}
    (env : Env) (inputs : list sitl_input) (sst : Sailboat M X * Statics)
    : Sailboat M X * Statics :=
  fold_left (fun acc input => update env input acc) inputs sst.

(** The runs as a relation: [runs env inputs sst sst'] when stepping
    through [inputs] from [sst] ends in [sst']. *)
Inductive runs {M X : Type} `{Matrix3f_ops M} `{Aircraft_ops M X}
    (env : Env) : list sitl_input -> Sailboat M X * Statics ->
                  Sailboat M X * Statics -> Prop :=
  | runs_nil : forall sst, runs env [] sst sst
  | runs_cons : forall input inputs sst sst',
      runs env inputs (update env input sst) sst' ->
      runs env (input :: inputs) sst sst'.

End V1.

(** * The second version: quasi units and a bounded heel angle *)

Module V2.

Definition construct {M X : Type} (frame_str : string) (a : Aircraft M X)
    (g : Vector3f) (heave phase : R) : Sailboat M X :=
  mk_Sailboat a 35 1.8 1.0 (String.eqb frame_str "sailboat-motor")
    g heave phase.

(** Calculate the lift and drag given an apparent wind speed in m/s and
    angle-of-attack in degrees; returns (lift, drag). *)
Definition calc_lift_and_drag {M X : Type} (s : Sailboat M X)
    (wind_speed angle_of_attack_deg : R) : R * R :=
  let angle_of_attack_deg := wrap_180 angle_of_attack_deg in
  let abs_aoa_deg := Rabs angle_of_attack_deg in
  let cl := linear_interpolate abs_aoa_deg CL_curve in
  let cd := linear_interpolate abs_aoa_deg CD_curve in
  let f_max := wind_speed * wind_speed * sail_area s in
  let drag := cd * f_max in
  let lift := cl * f_max * signum angle_of_attack_deg in
  (lift, drag).

(** [is_negative(v) ? -1 : 1] *)
Definition sign_of (v : R) : R := if is_negative v then -1 else 1.

(** sail angle of attack; the sail angle comes from the servo output of
    the sail type. *)
Definition angle_of_attack (env : Env) (input : sitl_input)
    (wind_apparent_dir_bf : R) : R :=
  let wind_apparent_dir_bf_sign := sign_of wind_apparent_dir_bf in
  if (Sail_type_get (sail_type (sitl env)) =? 1)%Z then
    (* directly actuated wing *)
    let wing_angle_bf :=
      constrain_float
        (IZR (servo input DIRECT_WING_SERVO_CH - 1500) / 500 * 90) (-90) 90 in
    wind_apparent_dir_bf - wing_angle_bf
  else
    (* mainsail with sheet: mainsail angle from servo output 4 *)
    let mainsail_angle_bf :=
      constrain_float
        (IZR (servo input MAINSAIL_SERVO_CH - 1000) / 1000 * 90) 0 90 in
    MAX (Rabs wind_apparent_dir_bf - mainsail_angle_bf) 0
    * wind_apparent_dir_bf_sign.

(** The sail forces of a step; [s] is the boat after [update_wind]. *)
Definition sail_forces {M X : Type} `{Matrix3f_ops M}
    (env : Env) (input : sitl_input) (s : Sailboat M X) : SailForces :=
  let b := base s in
  let wind_apparent_ef := Vector3f.sub (velocity_ef b) (wind_ef b) in
  let wind_apparent_dir_ef :=
    degrees (atan2 (Vector3f.y wind_apparent_ef)
                   (Vector3f.x wind_apparent_ef)) in
  let wind_apparent_speed :=
    safe_sqrt (sq (Vector3f.x wind_apparent_ef)
               + sq (Vector3f.y wind_apparent_ef)) in
  let '(roll, pitch, yaw) := to_euler (dcm b) in
  let wind_apparent_dir_bf := wrap_180 (wind_apparent_dir_ef - degrees yaw) in
  let aoa_deg := angle_of_attack env input wind_apparent_dir_bf in
  let '(lift_wf, drag_wf) :=
    calc_lift_and_drag s wind_apparent_speed aoa_deg in
  let sin_rot_rad := sin (radians wind_apparent_dir_bf) in
  let cos_rot_rad := cos (radians wind_apparent_dir_bf) in
  let force_fwd := (lift_wf * sin_rot_rad) - (drag_wf * cos_rot_rad) in
  let force_heel := (lift_wf * cos_rot_rad) in
  mk_SailForces wind_apparent_dir_bf wind_apparent_speed
    aoa_deg lift_wf drag_wf force_fwd force_heel.

(** [update], up to the new position vector: the boat after the step and
    the time step for the wave update. *)
Definition step {M X : Type} `{Matrix3f_ops M} `{Aircraft_ops M X}
    (env : Env) (input : sitl_input) (s : Sailboat M X)
    : Sailboat M X * R :=
  (* update wind *)
  let s := set_base s (update_wind env input (base s)) in
  let b := base s in
  let steering := steering_of input in
  let f := sail_forces env input s in
  let rpm0 := wind_apparent_speed f in
  let airspeed_pitot := wind_apparent_speed f in
  let k_pitch := 0.05 in
  let heel_angle := constrain_float (force_heel f * k_pitch) (-45) 45 in
  (* how much time has passed? *)
  let delta_time := IZR (frame_time_us b) * 1.0e-6 in
  (* speed in m/s in body frame *)
  let velocity_body := mul_vector (transposed (dcm b)) (velocity_ef_water b) in
  (* speed along x axis, +ve is forward *)
  let speed := Vector3f.x velocity_body in
  let speed_sign := sign_of speed in
  (* yaw rate in degrees/s *)
  let yaw_rate := get_yaw_rate s steering speed in
  let gyro :=
    Vector3f.add (Vector3f.mk 0 0 (radians yaw_rate)) (wave_gyro s) in
  (* update attitude *)
  let dcm := rotate (dcm b) (Vector3f.scale gyro delta_time) in
  let dcm := normalize dcm in
  let '(roll, pitch, yaw) := to_euler dcm in
  let roll := radians heel_angle in
  let dcm := from_euler roll pitch yaw in
  let dcm := normalize dcm in
  (* hull drag *)
  let hull_drag := sq speed * 0.5 * speed_sign in
  let throttle_force := throttle_force_of s input in
  (* accel in body frame *)
  let accel_body :=
    Vector3f.mk ((throttle_force + force_fwd f) - hull_drag) 0 0 in
  let accel_body := Vector3f.div accel_body (mass b) in
  (* add in accel due to direction change *)
  let accel_body :=
    Vector3f.set_y accel_body
      (Vector3f.y accel_body + radians yaw_rate * speed) in
  (* now in earth frame; remove roll and pitch effects from waves *)
  let '(r, p, y) := to_euler dcm in
  let temp_dcm := from_euler 0 0 y in
  let accel_earth := mul_vector temp_dcm accel_body in
  (* we are on the ground, so our vertical accel is zero *)
  let accel_earth := Vector3f.set_z accel_earth (0 + wave_heave s) in
  (* acceleration as seen by the accelerometers *)
  let accel_body :=
    mul_vector (transposed dcm)
      (Vector3f.add accel_earth (Vector3f.mk 0 0 (- GRAVITY_MSS))) in
  (* tide calcs *)
  let tide_velocity_ef := tide_velocity_ef env in
  (* new velocity vector *)
  let velocity_ef_water :=
    Vector3f.add (velocity_ef_water b) (Vector3f.scale accel_earth delta_time) in
  let velocity_ef := Vector3f.add velocity_ef_water tide_velocity_ef in
  (* new position vector *)
  let position :=
    Vector3f.add (position b) (Vector3f.scale velocity_ef delta_time) in
  let b :=
    mk_Aircraft dcm gyro accel_body velocity_ef velocity_ef_water
      (wind_ef b) position rpm0 airspeed_pitot (mass b) (frame_time_us b)
      (other b) in
  (set_base s b, delta_time).

(** update the sailboat simulation by one time step *)
Definition update {M X : Type} `{Matrix3f_ops M} `{Aircraft_ops M X}
    (env : Env) (input : sitl_input) (s : Sailboat M X) : Sailboat M X :=
  let '(s, delta_time) := step env input s in
  finish_step env delta_time s.

(** A run: one [update] per control input snapshot, in order. *)
Definition run {M X : Type} `{Matrix3f_ops M} `{Aircraft_ops M X}
    (env : Env) (inputs : list sitl_input) (s : Sailboat M X)
    : Sailboat M X :=
  fold_left (fun acc input => update env input acc) inputs s.

(** The runs as a relation: [runs env inputs s s'] when stepping through
    [inputs] from [s] ends in [s']. *)
Inductive runs {M X : Type} `{Matrix3f_ops M} `{Aircraft_ops M X}
    (env : Env) : list sitl_input -> Sailboat M X -> Sailboat M X -> Prop :=
  | runs_nil : forall s, runs env [] s s
  | runs_cons : forall input inputs s s',
      runs env inputs (update env input s) s' ->
      runs env (input :: inputs) s s'.

End V2.

(** * An implementation of the two interfaces

    Modelled from the spec: [Matrix3f] and the [Aircraft] base class are
    not in the sources; the spec lists their operations (rotate, normalize,
    to_euler, from_euler, transpose; update_wind, update_position,
    time_advance, update_mag_field_bf).  Here is the direction cosine
    matrix with its Euler angles (roll, pitch, yaw) and a base class
    without turbulence, location or magnetic field; [other] is the
    simulated time in microseconds.  The model is run on it at concrete
    states. *)

Module Plain.

Record Matrix3f : Type := mk_Matrix3f {
  a : Vector3f;
  b : Vector3f;
  c : Vector3f
}.

Definition identity : Matrix3f :=
  mk_Matrix3f (Vector3f.mk 1 0 0) (Vector3f.mk 0 1 0) (Vector3f.mk 0 0 1).

Definition dot (u v : Vector3f) : R :=
  Vector3f.x u * Vector3f.x v + Vector3f.y u * Vector3f.y v
  + Vector3f.z u * Vector3f.z v.

Definition cross (u v : Vector3f) : Vector3f :=
  Vector3f.mk
    (Vector3f.y u * Vector3f.z v - Vector3f.z u * Vector3f.y v)
    (Vector3f.z u * Vector3f.x v - Vector3f.x u * Vector3f.z v)
    (Vector3f.x u * Vector3f.y v - Vector3f.y u * Vector3f.x v).

Definition length (u : Vector3f) : R := sqrt (dot u u).

Definition m_to_euler (m : Matrix3f) : R * R * R :=
  let pitch := - asin (Vector3f.x (c m)) in
  let roll := atan2 (Vector3f.y (c m)) (Vector3f.z (c m)) in
  let yaw := atan2 (Vector3f.x (b m)) (Vector3f.x (a m)) in
  (roll, pitch, yaw).

Definition m_from_euler (roll pitch yaw : R) : Matrix3f :=
  let cp := cos pitch in
  let sp := sin pitch in
  let sr := sin roll in
  let cr := cos roll in
  let sy := sin yaw in
  let cy := cos yaw in
  mk_Matrix3f
    (Vector3f.mk (cp * cy) (sr * sp * cy - cr * sy) (cr * sp * cy + sr * sy))
    (Vector3f.mk (cp * sy) (sr * sp * sy + cr * cy) (cr * sp * sy - sr * cy))
    (Vector3f.mk (- sp) (sr * cp) (cr * cp)).

Definition m_transposed (m : Matrix3f) : Matrix3f :=
  mk_Matrix3f
    (Vector3f.mk (Vector3f.x (a m)) (Vector3f.x (b m)) (Vector3f.x (c m)))
    (Vector3f.mk (Vector3f.y (a m)) (Vector3f.y (b m)) (Vector3f.y (c m)))
    (Vector3f.mk (Vector3f.z (a m)) (Vector3f.z (b m)) (Vector3f.z (c m))).

Definition m_mul_vector (m : Matrix3f) (v : Vector3f) : Vector3f :=
  Vector3f.mk (dot (a m) v) (dot (b m) v) (dot (c m) v).

Definition m_mul_transpose (m : Matrix3f) (v : Vector3f) : Vector3f :=
  m_mul_vector (m_transposed m) v.

Definition m_rotate (m : Matrix3f) (g : Vector3f) : Matrix3f :=
  mk_Matrix3f
    (Vector3f.add (a m) (cross (a m) g))
    (Vector3f.add (b m) (cross (b m) g))
    (Vector3f.add (c m) (cross (c m) g)).

Definition m_normalize (m : Matrix3f) : Matrix3f :=
  let error := dot (a m) (b m) in
  let t0 := Vector3f.sub (a m) (Vector3f.scale (b m) (0.5 * error)) in
  let t1 := Vector3f.sub (b m) (Vector3f.scale (a m) (0.5 * error)) in
  let t2 := cross t0 t1 in
  mk_Matrix3f
    (Vector3f.scale t0 (1 / length t0))
    (Vector3f.scale t1 (1 / length t1))
    (Vector3f.scale t2 (1 / length t2)).

#[global] Instance matrix_ops : Matrix3f_ops Matrix3f := {
  to_euler := m_to_euler;
  from_euler := m_from_euler;
  mul_transpose := m_mul_transpose;
  transposed := m_transposed;
  mul_vector := m_mul_vector;
  rotate := m_rotate;
  normalize := m_normalize
}.

Definition set_wind_ef (v : Aircraft Matrix3f Z) (w : Vector3f)
    : Aircraft Matrix3f Z :=
  mk_Aircraft (dcm v) (gyro v) (accel_body v) (velocity_ef v)
    (velocity_ef_water v) w (position v) (rpm0 v) (airspeed_pitot v)
    (mass v) (frame_time_us v) (other v).

Definition a_update_wind (env : Env) (input : sitl_input)
    (v : Aircraft Matrix3f Z) : Aircraft Matrix3f Z :=
  let w := wind input in
  set_wind_ef v
    (Vector3f.scale
       (Vector3f.mk
          (cos (radians (wind_direction w)) * cos (radians (wind_dir_z w)))
          (sin (radians (wind_direction w)) * cos (radians (wind_dir_z w)))
          (sin (radians (wind_dir_z w))))
       (wind_speed w)).

Definition a_time_advance (env : Env) (v : Aircraft Matrix3f Z)
    : Aircraft Matrix3f Z :=
  mk_Aircraft (dcm v) (gyro v) (accel_body v) (velocity_ef v)
    (velocity_ef_water v) (wind_ef v) (position v) (rpm0 v)
    (airspeed_pitot v) (mass v) (frame_time_us v)
    (other v + frame_time_us v)%Z.

#[global] Instance aircraft_ops : Aircraft_ops Matrix3f Z := {
  update_wind := a_update_wind;
  update_position := fun _ v => v;
  time_advance := a_time_advance;
  update_mag_field_bf := fun _ v => v
}.

(** A boat at rest, level and heading north. *)
Definition aircraft0 : Aircraft Matrix3f Z :=
  mk_Aircraft identity Vector3f.zero Vector3f.zero Vector3f.zero
    Vector3f.zero Vector3f.zero Vector3f.zero 0 0 1 1000 0%Z.

Definition boat1 : Sailboat Matrix3f Z :=
  V1.construct "sailboat" aircraft0 Vector3f.zero 0 0.

Definition boat2 : Sailboat Matrix3f Z :=
  V2.construct "sailboat" aircraft0 Vector3f.zero 0 0.

Definition statics0 : V1.Statics := V1.mk_Statics 0 0 [].

(** Servo outputs: rudder centred, sail sheeted half out. *)
Definition input0 : sitl_input :=
  mk_sitl_input [1500; 1500; 1500; 1500; 1500]%Z (mk_wind_input 5 90 0 0).

Definition wave_off : Wave.t := Wave.mk 0 0 1 10 0.5.
Definition wave_on : Wave.t := Wave.mk 2 0 1 10 0.5.

Definition env_disarmed : Env :=
  mk_Env (mk_SITL wave_on (Tide.mk 90 1) mainsail_with_sheet) false.

Definition env_armed : Env :=
  mk_Env (mk_SITL wave_on (Tide.mk 90 1) mainsail_with_sheet) true.

Definition env_calm : Env :=
  mk_Env (mk_SITL wave_off (Tide.mk 90 0) mainsail_with_sheet) true.

(** Sail sheeted fully out (servo output 4 at 2000). *)
Definition input_sheet_out : sitl_input :=
  mk_sitl_input [1500; 1500; 1500; 2000; 1500]%Z (mk_wind_input 0 0 0 0).

(** The second version's boat moving east at 5 m/s in still air, level and
    heading north: the apparent wind is on the beam. *)
Definition boat2_reach : Sailboat Matrix3f Z :=
  V2.construct "sailboat"
    (mk_Aircraft identity Vector3f.zero Vector3f.zero (Vector3f.mk 0 5 0)
       (Vector3f.mk 0 5 0) Vector3f.zero Vector3f.zero 0 0 1 1000 0%Z)
    Vector3f.zero 0 0.

End Plain.


(** * Properties *)

(** ** Comparisons and the helpers of AP_Math *)

Lemma Rltb_lt (a b : R) : Rltb a b = true <-> a < b.
Proof.
  unfold Rltb. destruct (Rlt_dec a b); split; intros; try discriminate; tauto.
Qed.

Lemma Rltb_ge (a b : R) : Rltb a b = false <-> b <= a.
Proof.
  unfold Rltb. destruct (Rlt_dec a b); split; intros; try discriminate;
    try reflexivity; lra.
Qed.

Lemma Rleb_le (a b : R) : Rleb a b = true <-> a <= b.
Proof.
  unfold Rleb. destruct (Rle_dec a b); split; intros; try discriminate; tauto.
Qed.

Lemma Rleb_gt (a b : R) : Rleb a b = false <-> b < a.
Proof.
  unfold Rleb. destruct (Rle_dec a b); split; intros; try discriminate;
    try reflexivity; lra.
Qed.

Lemma FLT_EPSILON_pos : 0 < FLT_EPSILON.
Proof. unfold FLT_EPSILON. lra. Qed.

Lemma is_zero_0 : is_zero 0 = true.
Proof.
  unfold is_zero. apply Rltb_lt. rewrite Rabs_R0. apply FLT_EPSILON_pos.
Qed.

Lemma is_zero_false (v : R) : FLT_EPSILON <= Rabs v -> is_zero v = false.
Proof. intros Hv. unfold is_zero. now apply Rltb_ge. Qed.

Lemma is_zero_false_inv (v : R) : is_zero v = false -> v <> 0.
Proof.
  intros Hv ->. rewrite is_zero_0 in Hv. discriminate.
Qed.

Lemma MAX_Rmax (a b : R) : MAX a b = Rmax a b.
Proof.
  unfold MAX, Rmax, Rltb.
  destruct (Rlt_dec b a), (Rle_dec a b); try reflexivity; lra.
Qed.

Lemma MAX_0_nonneg (a : R) : 0 <= MAX a 0.
Proof. rewrite MAX_Rmax. apply Rmax_r. Qed.

Lemma signum_pos (v : R) : 0 < v -> signum v = 1.
Proof. intros Hv. unfold signum. now rewrite (proj2 (Rltb_lt 0 v) Hv). Qed.

Lemma signum_neg (v : R) : v < 0 -> signum v = -1.
Proof.
  intros Hv. unfold signum.
  rewrite (proj2 (Rltb_ge 0 v)) by lra.
  now rewrite (proj2 (Rltb_lt v 0) Hv).
Qed.

Lemma signum_0 : signum 0 = 0.
Proof.
  unfold signum. rewrite !(proj2 (Rltb_ge 0 0)) by lra. reflexivity.
Qed.

(** A wrapped angle lies in one period. *)
Lemma wrap_period_range (period v : R) :
  0 < period -> 0 <= wrap_period period v < period.
Proof.
  intros Hp. unfold wrap_period.
  destruct (base_Int_part (v / period)) as [Hlo Hhi].
  set (n := IZR (Int_part (v / period))) in *.
  assert (Hv : v = period * (v / period)) by (field; lra).
  split.
  - assert (period * n <= period * (v / period))
      by (apply Rmult_le_compat_l; lra).
    lra.
  - assert (period * (v / period) < period * (n + 1))
      by (apply Rmult_lt_compat_l; lra).
    lra.
Qed.

(** An angle already in the period is left as it is. *)
Lemma wrap_period_id (period v : R) :
  0 <= v < period -> wrap_period period v = v.
Proof.
  intros [Hlo Hhi]. unfold wrap_period.
  assert (Hp : 0 < period) by lra.
  assert (Hq : 0 <= v / period < 1).
  { split.
    - apply Rmult_le_pos; [lra | left; now apply Rinv_0_lt_compat].
    - apply (Rmult_lt_reg_l period); [lra |].
      replace (period * (v / period)) with v by (field; lra). lra. }
  rewrite <- (Int_part_spec (v / period) 0); [simpl; lra |].
  simpl. lra.
Qed.

Lemma M_2PI_pos : 0 < M_2PI.
Proof. unfold M_2PI. generalize PI_RGT_0. lra. Qed.

Lemma wrap_2PI_range (v : R) : 0 <= wrap_2PI v < M_2PI.
Proof. apply wrap_period_range, M_2PI_pos. Qed.

Lemma wrap_180_id (v : R) : 0 <= v <= 180 -> wrap_180 v = v.
Proof.
  intros Hv. unfold wrap_180, wrap_360.
  rewrite wrap_period_id by lra.
  now rewrite (proj2 (Rltb_ge 180 v)) by lra.
Qed.

(** ** The heel model when disarmed *)

(** C9.  When the vehicle is not soft-armed, [get_heel_angular_acceleration]
    returns exactly 0, whatever the heel force, the roll angle and the roll
    rate are. *)
Theorem heel_acceleration_disarmed :
  forall (env : Env) (force_heel roll_angle roll_rate : R),
    get_soft_armed env = false ->
    V1.get_heel_angular_acceleration env force_heel roll_angle roll_rate = 0.
Proof.
  intros env force_heel roll_angle roll_rate Harmed.
  unfold V1.get_heel_angular_acceleration. now rewrite Harmed.
Qed.

Lemma heel_acceleration_disarmed_witness :
  V1.get_heel_angular_acceleration Plain.env_disarmed 12 0.3 0.1 = 0.
Proof.
  apply (heel_acceleration_disarmed Plain.env_disarmed 12 0.3 0.1).
  reflexivity.
Defined.

(** ** The wave generator *)

Lemma waves_off_cases (env : Env) :
  Wave.enable (wave (sitl env)) = 0%Z
  \/ Wave.amp (wave (sitl env)) = 0
  \/ get_soft_armed env = false ->
  waves_off env = true.
Proof.
  unfold waves_off. intros [Hen | [Hamp | Harm]].
  - now rewrite Hen.
  - rewrite Hamp, is_zero_0. now rewrite orb_true_r.
  - rewrite Harm. simpl. now rewrite orb_true_r.
Qed.

Lemma update_wave_off {M X : Type} `{Matrix3f_ops M}
    (env : Env) (delta_time : R) (s : Sailboat M X) :
  waves_off env = true ->
  update_wave env delta_time s =
  set_wave s
    (Vector3f.mk (- fst (fst (to_euler (dcm (base s)))))
                 (- snd (fst (to_euler (dcm (base s))))) 0)
    (- Vector3f.z (velocity_ef (base s))) 0.
Proof.
  intros Hoff. unfold update_wave.
  destruct (to_euler (dcm (base s))) as [[r p] y]. rewrite Hoff. simpl.
  unfold Vector3f.scale, WAVE_ANGLE_GAIN, WAVE_HEAVE_GAIN. simpl.
  f_equal; [f_equal |]; lra.
Qed.

Lemma update_wave_on_phase {M X : Type} `{Matrix3f_ops M}
    (env : Env) (delta_time : R) (s : Sailboat M X) :
  waves_off env = false ->
  wave_phase (update_wave env delta_time s) =
  wrap_2PI
    (wave_phase s
     + (Wave.speed (wave (sitl env))
        - (Vector3f.x (velocity_ef (base s))
             * sin (radians (Wave.direction (wave (sitl env))))
           + Vector3f.y (velocity_ef (base s))
             * cos (radians (Wave.direction (wave (sitl env))))))
       * delta_time / Wave.length (wave (sitl env)) * M_2PI).
Proof.
  intros Hon. unfold update_wave.
  destruct (to_euler (dcm (base s))) as [[r p] y]. rewrite Hon. reflexivity.
Qed.

Lemma update_wave_phase_range {M X : Type} `{Matrix3f_ops M}
    (env : Env) (delta_time : R) (s : Sailboat M X) :
  0 <= wave_phase (update_wave env delta_time s) < 2 * PI.
Proof.
  destruct (waves_off env) eqn:Hoff.
  - rewrite update_wave_off by assumption. simpl.
    generalize PI_RGT_0. lra.
  - rewrite update_wave_on_phase by assumption. apply wrap_2PI_range.
Qed.

Lemma update_wave_base {M X : Type} `{Matrix3f_ops M}
    (env : Env) (delta_time : R) (s : Sailboat M X) :
  base (update_wave env delta_time s) = base s.
Proof.
  unfold update_wave.
  destruct (to_euler (dcm (base s))) as [[r p] y].
  now destruct (waves_off env).
Qed.

Lemma V1_update_phase_range {M X : Type} `{Matrix3f_ops M} `{Aircraft_ops M X}
    (env : Env) (input : sitl_input) (sst : Sailboat M X * V1.Statics) :
  0 <= wave_phase (fst (V1.update env input sst)) < 2 * PI.
Proof.
  unfold V1.update.
  destruct (V1.step env input (fst sst) (snd sst)) as [[s st] dt].
  simpl. unfold finish_step. apply update_wave_phase_range.
Qed.

Lemma V2_update_phase_range {M X : Type} `{Matrix3f_ops M} `{Aircraft_ops M X}
    (env : Env) (input : sitl_input) (s : Sailboat M X) :
  0 <= wave_phase (V2.update env input s) < 2 * PI.
Proof.
  unfold V2.update.
  destruct (V2.step env input s) as [s' dt].
  unfold finish_step. apply update_wave_phase_range.
Qed.

(** With the exact wrap of this model (real numbers), the wave phase after
    [update_wave] lies in [0, 2 pi): with the waves on, the phase is
    advanced by ((wave_speed - boat_speed) * delta_time / wave_length)
    * 2 pi and wrapped; with the waves off it is reset to 0.  The strict
    upper bound is a fact of the exact wrap only: what a single precision
    [wrap_2PI] returns next to 2 pi is decided by rounding, which this
    model does not have. *)
Theorem wave_phase_wrapped :
  forall (M X : Type) (mo : Matrix3f_ops M) (ao : Aircraft_ops M X)
         (env : Env) (delta_time : R) (s : Sailboat M X),
    wave_phase (update_wave env delta_time s) =
      (if waves_off env then 0
       else
         let boat_speed :=
           Vector3f.x (velocity_ef (base s))
             * sin (radians (Wave.direction (wave (sitl env))))
           + Vector3f.y (velocity_ef (base s))
             * cos (radians (Wave.direction (wave (sitl env)))) in
         wrap_2PI
           (wave_phase s
            + (Wave.speed (wave (sitl env)) - boat_speed) * delta_time
              / Wave.length (wave (sitl env)) * (2 * PI)))
    /\ 0 <= wave_phase (update_wave env delta_time s) < 2 * PI
    /\ (forall (inputs : list sitl_input) (input : sitl_input)
               (st : V1.Statics),
          0 <= wave_phase (fst (V1.run env (inputs ++ [input]) (s, st)))
            < 2 * PI)
    /\ (forall (inputs : list sitl_input) (input : sitl_input),
          0 <= wave_phase (V2.run env (inputs ++ [input]) s) < 2 * PI).
Proof.
  intros M X mo ao env delta_time s. repeat split.
  - destruct (waves_off env) eqn:Hoff.
    + now rewrite update_wave_off by assumption.
    + now rewrite update_wave_on_phase by assumption.
  - apply update_wave_phase_range.
  - apply update_wave_phase_range.
  - unfold V1.run. rewrite fold_left_app. simpl.
    apply V1_update_phase_range.
  - unfold V1.run. rewrite fold_left_app. simpl.
    apply V1_update_phase_range.
  - unfold V2.run. rewrite fold_left_app. simpl.
    apply V2_update_phase_range.
  - unfold V2.run. rewrite fold_left_app. simpl.
    apply V2_update_phase_range.
Qed.

(** C8.  With the waves disabled, a zero amplitude or a disarmed vehicle,
    [update_wave] sets the gyro disturbance to (-roll, -pitch, 0) (gain 1),
    the heave to minus the vertical earth-frame velocity (gain 1) and the
    phase to 0; the gyro disturbance then depends on the current roll and
    pitch only, not on the wave state or time step before. *)
Theorem update_wave_disabled :
  forall (M X : Type) (mo : Matrix3f_ops M)
         (env : Env) (delta_time : R) (s : Sailboat M X),
    Wave.enable (wave (sitl env)) = 0%Z
    \/ Wave.amp (wave (sitl env)) = 0
    \/ get_soft_armed env = false ->
    let roll := fst (fst (to_euler (dcm (base s)))) in
    let pitch := snd (fst (to_euler (dcm (base s)))) in
    wave_gyro (update_wave env delta_time s)
      = Vector3f.scale (Vector3f.mk (- roll) (- pitch) 0) 1
    /\ wave_gyro (update_wave env delta_time s)
      = Vector3f.mk (- roll) (- pitch) 0
    /\ wave_heave (update_wave env delta_time s)
      = - Vector3f.z (velocity_ef (base s)) * 1
    /\ wave_phase (update_wave env delta_time s) = 0
    /\ (forall (delta_time' : R) (s' : Sailboat M X),
          fst (to_euler (dcm (base s'))) = fst (to_euler (dcm (base s))) ->
          wave_gyro (update_wave env delta_time' s')
          = wave_gyro (update_wave env delta_time s)).
Proof.
  intros M X mo env delta_time s Hoff roll pitch.
  apply waves_off_cases in Hoff.
  rewrite update_wave_off by assumption. simpl.
  repeat split.
  - unfold Vector3f.scale. simpl. subst roll pitch. f_equal; lra.
  - lra.
  - intros delta_time' s' Heuler.
    rewrite update_wave_off by assumption. simpl. now rewrite Heuler.
Qed.

Lemma update_wave_disabled_witness :
  wave_gyro (update_wave Plain.env_calm 0.001 Plain.boat1)
    = Vector3f.mk
        (- fst (fst (to_euler (dcm (base Plain.boat1)))))
        (- snd (fst (to_euler (dcm (base Plain.boat1))))) 0
  /\ wave_phase (update_wave Plain.env_calm 0.001 Plain.boat1) = 0.
Proof.
  destruct (update_wave_disabled _ _ _ Plain.env_calm 0.001 Plain.boat1)
    as (_ & Hgyro & _ & Hphase & _).
  - left. reflexivity.
  - split; [exact Hgyro | exact Hphase].
Defined.

(** ** The tide *)

Lemma tide_velocity_z (env : Env) : Vector3f.z (tide_velocity_ef env) = 0.
Proof.
  unfold tide_velocity_ef.
  now destruct (get_soft_armed env && negb (is_zero (Tide.speed (tide (sitl env))))).
Qed.

Lemma tide_velocity_none (env : Env) :
  get_soft_armed env = false \/ Tide.speed (tide (sitl env)) = 0 ->
  tide_velocity_ef env = Vector3f.zero.
Proof.
  unfold tide_velocity_ef. intros [Harm | Htide].
  - now rewrite Harm.
  - rewrite Htide, is_zero_0. now rewrite andb_false_r.
Qed.

Lemma Vector3f_add_zero (v : Vector3f) : Vector3f.add v Vector3f.zero = v.
Proof.
  destruct v as [vx vy vz]. unfold Vector3f.add. simpl. f_equal; lra.
Qed.

Lemma V1_step_velocity {M X : Type} `{Matrix3f_ops M} `{Aircraft_ops M X}
    (env : Env) (input : sitl_input) (s : Sailboat M X) (st : V1.Statics) :
  velocity_ef (base (fst (fst (V1.step env input s st)))) =
  Vector3f.add (velocity_ef_water (base (fst (fst (V1.step env input s st)))))
               (tide_velocity_ef env).
Proof.
  unfold V1.step.
  destruct (to_euler _) as [[r p] y]. reflexivity.
Qed.

Lemma V2_step_velocity {M X : Type} `{Matrix3f_ops M} `{Aircraft_ops M X}
    (env : Env) (input : sitl_input) (s : Sailboat M X) :
  velocity_ef (base (fst (V2.step env input s))) =
  Vector3f.add (velocity_ef_water (base (fst (V2.step env input s))))
               (tide_velocity_ef env).
Proof.
  unfold V2.step.
  destruct (to_euler (normalize (rotate _ _))) as [[roll pitch] yaw].
  destruct (to_euler _) as [[r p] y]. reflexivity.
Qed.

(** C10.  In every step, in both versions, the velocity is the
    water-relative velocity plus a tide velocity whose vertical component
    is exactly 0; when the vehicle is not soft-armed or the tide speed is
    zero the tide velocity is the zero vector, and the velocity equals the
    water-relative velocity. *)
Theorem tide_velocity_frame :
  forall (M X : Type) (mo : Matrix3f_ops M) (ao : Aircraft_ops M X)
         (env : Env) (input : sitl_input) (s : Sailboat M X)
         (st : V1.Statics),
    let b1 := base (fst (fst (V1.step env input s st))) in
    let b2 := base (fst (V2.step env input s)) in
    Vector3f.z (tide_velocity_ef env) = 0
    /\ velocity_ef b1 = Vector3f.add (velocity_ef_water b1) (tide_velocity_ef env)
    /\ velocity_ef b2 = Vector3f.add (velocity_ef_water b2) (tide_velocity_ef env)
    /\ (get_soft_armed env = false \/ Tide.speed (tide (sitl env)) = 0 ->
        tide_velocity_ef env = Vector3f.zero
        /\ velocity_ef b1 = velocity_ef_water b1
        /\ velocity_ef b2 = velocity_ef_water b2).
Proof.
  intros M X mo ao env input s st b1 b2.
  split; [apply tide_velocity_z |].
  split; [apply V1_step_velocity |].
  split; [apply V2_step_velocity |].
  intros Hnone. apply tide_velocity_none in Hnone.
  split; [assumption |].
  subst b1 b2. rewrite V1_step_velocity, V2_step_velocity, Hnone.
  now rewrite !Vector3f_add_zero.
Qed.

Lemma tide_velocity_frame_witness :
  tide_velocity_ef Plain.env_disarmed = Vector3f.zero
  /\ velocity_ef
       (base (fst (fst (V1.step Plain.env_disarmed Plain.input0 Plain.boat1
                          Plain.statics0))))
     = velocity_ef_water
         (base (fst (fst (V1.step Plain.env_disarmed Plain.input0 Plain.boat1
                            Plain.statics0)))).
Proof.
  destruct (tide_velocity_frame _ _ _ _ Plain.env_disarmed Plain.input0
              Plain.boat1 Plain.statics0) as (_ & _ & _ & Hnone).
  destruct Hnone as (Htide & Hv1 & _).
  - left. reflexivity.
  - split; [exact Htide | exact Hv1].
Defined.

(** ** The sail forces *)

Lemma V1_sail_forces_eq {M X : Type} `{Matrix3f_ops M}
    (env : Env) (input : sitl_input) (s : Sailboat M X) :
  let f := V1.sail_forces env input s in
  force_fwd f
  = lift_wf f * sin (radians (wind_apparent_dir_bf f))
    - drag_wf f * cos (radians (wind_apparent_dir_bf f))
  /\ force_heel f
  = lift_wf f * cos (radians (wind_apparent_dir_bf f))
    + drag_wf f * sin (radians (wind_apparent_dir_bf f))
  /\ (lift_wf f, drag_wf f)
  = V1.calc_lift_and_drag s (wind_apparent_speed f) (aoa_deg f).
Proof.
  unfold V1.sail_forces.
  destruct (V1.calc_lift_and_drag _ _ _) as [lift drag]. simpl. tauto.
Qed.

Lemma V2_sail_forces_eq {M X : Type} `{Matrix3f_ops M}
    (env : Env) (input : sitl_input) (s : Sailboat M X) :
  let f := V2.sail_forces env input s in
  force_fwd f
  = lift_wf f * sin (radians (wind_apparent_dir_bf f))
    - drag_wf f * cos (radians (wind_apparent_dir_bf f))
  /\ force_heel f
  = lift_wf f * cos (radians (wind_apparent_dir_bf f))
  /\ (lift_wf f, drag_wf f)
  = V2.calc_lift_and_drag s (wind_apparent_speed f) (aoa_deg f).
Proof.
  unfold V2.sail_forces.
  destruct (to_euler _) as [[roll pitch] yaw].
  destruct (V2.calc_lift_and_drag _ _ _) as [lift drag]. simpl. tauto.
Qed.

(** C3, as amended.  In every step the lift and drag of the wind frame are
    resolved through the apparent wind angle theta of the body frame:
    forward force = lift * sin theta - drag * cos theta in both versions;
    heel force = lift * cos theta + drag * sin theta in the first version,
    and lift * cos theta, without the drag term, in the second. *)
Theorem sail_forces_resolved :
  forall (M X : Type) (mo : Matrix3f_ops M)
         (env : Env) (input : sitl_input) (s : Sailboat M X),
    let f1 := V1.sail_forces env input s in
    let f2 := V2.sail_forces env input s in
    let theta1 := radians (wind_apparent_dir_bf f1) in
    let theta2 := radians (wind_apparent_dir_bf f2) in
    force_fwd f1 = lift_wf f1 * sin theta1 - drag_wf f1 * cos theta1
    /\ force_heel f1 = lift_wf f1 * cos theta1 + drag_wf f1 * sin theta1
    /\ force_fwd f2 = lift_wf f2 * sin theta2 - drag_wf f2 * cos theta2
    /\ force_heel f2 = lift_wf f2 * cos theta2.
Proof.
  intros M X mo env input s f1 f2 theta1 theta2.
  destruct (V1_sail_forces_eq env input s) as (Hfwd1 & Hheel1 & _).
  destruct (V2_sail_forces_eq env input s) as (Hfwd2 & Hheel2 & _).
  repeat split; assumption.
Qed.

(** Comparisons of numerals are settled by [lra]. *)
Ltac rcmp :=
  repeat match goal with
  | |- context [Rltb ?a ?b] =>
      first [ rewrite (proj2 (Rltb_lt a b)) by lra
            | rewrite (proj2 (Rltb_ge a b)) by lra ]
  | |- context [Rleb ?a ?b] =>
      first [ rewrite (proj2 (Rleb_le a b)) by lra
            | rewrite (proj2 (Rleb_gt a b)) by lra ]
  end.

Lemma radians_90 : radians 90 = PI / 2.
Proof. unfold radians, DEG_TO_RAD, M_PI. lra. Qed.

Lemma degrees_PI2 : degrees (PI / 2) = 90.
Proof. unfold degrees, RAD_TO_DEG, M_PI. field. apply PI_neq0. Qed.

Lemma degrees_0 : degrees 0 = 0.
Proof. unfold degrees. lra. Qed.

(** The beam reach of [Plain.boat2_reach], piece by piece. *)
Lemma reach_wind_dir :
  wrap_180 (degrees (atan2 (5 - 0) (0 - 0)) - degrees (atan2 0 1)) = 90.
Proof.
  unfold atan2. rcmp.
  replace (0 / 1) with 0 by lra. rewrite atan_0, degrees_PI2, degrees_0.
  rewrite wrap_180_id; lra.
Qed.

Lemma reach_wind_speed : safe_sqrt (sq (0 - 0) + sq (5 - 0)) = 5.
Proof.
  unfold safe_sqrt, sq.
  replace ((0 - 0) * (0 - 0) + (5 - 0) * (5 - 0)) with (5 * 5) by lra.
  apply sqrt_square. lra.
Qed.

Lemma reach_aoa :
  V2.angle_of_attack Plain.env_armed Plain.input_sheet_out 90 = 0.
Proof.
  unfold V2.angle_of_attack, V2.sign_of, is_negative, constrain_float, MAX.
  simpl. unfold FLT_EPSILON.
  rewrite (Rabs_pos_eq 90) by lra.
  rcmp. rcmp. lra.
Qed.

Lemma reach_lift_drag :
  V2.calc_lift_and_drag Plain.boat2_reach 5 0 = (0, 2.5).
Proof.
  unfold V2.calc_lift_and_drag. rewrite wrap_180_id by lra. rewrite Rabs_R0.
  unfold CL_curve, CD_curve, linear_interpolate. rcmp. rewrite signum_0.
  simpl. f_equal; lra.
Qed.

Lemma reach_sail_forces :
  V2.sail_forces Plain.env_armed Plain.input_sheet_out Plain.boat2_reach
  = mk_SailForces 90 5 0 0 2.5 0 0.
Proof.
  unfold V2.sail_forces.
  cbn [Plain.boat2_reach V2.construct base velocity_ef wind_ef dcm to_euler
       Plain.matrix_ops Plain.m_to_euler Plain.identity Plain.a Plain.b
       Plain.c Vector3f.x Vector3f.y Vector3f.z Vector3f.sub Vector3f.zero].
  rewrite reach_wind_dir, reach_wind_speed, reach_aoa.
  change (V2.calc_lift_and_drag _ 5 0)
    with (V2.calc_lift_and_drag Plain.boat2_reach 5 0).
  rewrite reach_lift_drag, radians_90, sin_PI2, cos_PI2. f_equal; lra.
Qed.

(** C3 as stated fails on the second version: on a beam reach with the
    sheet fully out the drag is 2.5 and theta is 90 degrees, the heel
    force of the code is 0 and not lift * cos theta + drag * sin theta
    = 2.5. *)
Lemma V2_heel_force_without_drag :
  let f := V2.sail_forces Plain.env_armed Plain.input_sheet_out
             Plain.boat2_reach in
  force_heel f = 0
  /\ lift_wf f * cos (radians (wind_apparent_dir_bf f))
     + drag_wf f * sin (radians (wind_apparent_dir_bf f)) = 2.5
  /\ force_heel f
     <> lift_wf f * cos (radians (wind_apparent_dir_bf f))
        + drag_wf f * sin (radians (wind_apparent_dir_bf f)).
Proof.
  rewrite reach_sail_forces. simpl.
  rewrite radians_90, sin_PI2, cos_PI2. repeat split; lra.
Qed.

(** ** The angle of attack of the sheeted sail *)


Lemma constrain_float_range (amt low high : R) :
  low <= high -> low <= constrain_float amt low high <= high.
Proof.
  intros Hlh. unfold constrain_float.
  destruct (Rltb amt low) eqn:Hlow; [lra |].
  apply Rltb_ge in Hlow.
  destruct (Rltb high amt) eqn:Hhigh; [lra |].
  apply Rltb_ge in Hhigh. lra.
Qed.




(** ** Lift and drag *)

Lemma wrap_180_range (v : R) : -180 <= wrap_180 v <= 180.
Proof.
  unfold wrap_180, wrap_360.
  assert (Hr : 0 <= wrap_period 360 v < 360) by (apply wrap_period_range; lra).
  destruct (Rltb 180 (wrap_period 360 v)) eqn:Hhalf.
  - apply Rltb_lt in Hhalf. lra.
  - apply Rltb_ge in Hhalf. lra.
Qed.

Lemma CL_at_20 : linear_interpolate 20 CL_curve = 1.
Proof. unfold CL_curve, linear_interpolate. rcmp. reflexivity. Qed.

Lemma CD_at_20 : linear_interpolate 20 CD_curve = 0.2.
Proof. unfold CD_curve, linear_interpolate. rcmp. reflexivity. Qed.

Lemma V1_lift_drag_5_20 {M X : Type} (s : Sailboat M X) :
  sail_area s = 1.5 ->
  V1.calc_lift_and_drag s 5 20 = (22.96875, 4.59375).
Proof.
  intros Harea. unfold V1.calc_lift_and_drag.
  rewrite wrap_180_id by lra. rewrite Rabs_pos_eq by lra.
  rewrite CL_at_20, CD_at_20, signum_pos by lra.
  rewrite Harea. unfold sq. f_equal; lra.
Qed.

Lemma V2_lift_drag_5_20 {M X : Type} (s : Sailboat M X) :
  sail_area s = 1.0 ->
  V2.calc_lift_and_drag s 5 20 = (25, 5).
Proof.
  intros Harea. unfold V2.calc_lift_and_drag.
  rewrite wrap_180_id by lra. rewrite Rabs_pos_eq by lra.
  rewrite CL_at_20, CD_at_20, signum_pos by lra.
  rewrite Harea. f_equal; lra.
Qed.

(** C2 as stated fails on the second version: with its sail area 1.0, wind
    speed 5 and angle of attack 20 the drag is 5, and not cd * k = 3.0625
    for k = 1/2 * 1.225 * 5^2 * 1.0. *)
Lemma V2_drag_without_air_density :
  let k := 1 / 2 * 1.225 * sq 5 * sail_area Plain.boat2 in
  snd (V2.calc_lift_and_drag Plain.boat2 5 20) = 5
  /\ linear_interpolate (Rabs (wrap_180 20)) CD_curve * k = 3.0625
  /\ snd (V2.calc_lift_and_drag Plain.boat2 5 20)
     <> linear_interpolate (Rabs (wrap_180 20)) CD_curve * k.
Proof.
  rewrite V2_lift_drag_5_20 by reflexivity.
  rewrite wrap_180_id by lra. rewrite Rabs_pos_eq by lra.
  rewrite CD_at_20. unfold sq. simpl. repeat split; lra.
Qed.

(** C2, as amended.  Both versions normalise the angle of attack a to
    [-180,180] and return drag = cd(|a|) * k and lift = cl(|a|) * k *
    sign(a).  In the first version k = 1/2 * 1.225 * v^2 * sail_area; for
    its boat (sail area 1.5), wind speed 5 and the angle of attack 20 of
    the sheeted sail at wind angle 40 and sail angle 20, k = 22.96875,
    lift = 22.96875 and drag = 4.59375.  In the second version
    k = v^2 * sail_area, without the air density. *)
Theorem lift_and_drag_formula :
  forall (M X : Type) (s : Sailboat M X) (v a : R)
         (frame_str : string) (b : Aircraft M X) (g : Vector3f)
         (heave phase : R),
    let a' := wrap_180 a in
    let cl := linear_interpolate (Rabs a') CL_curve in
    let cd := linear_interpolate (Rabs a') CD_curve in
    let k1 := 1 / 2 * 1.225 * (v * v) * sail_area s in
    let k2 := v * v * sail_area s in
    let boat := V1.construct frame_str b g heave phase in
    -180 <= a' <= 180
    /\ V1.calc_lift_and_drag s v a = (cl * k1 * signum a', cd * k1)
    /\ V2.calc_lift_and_drag s v a = (cl * k2 * signum a', cd * k2)
    /\ Rmax (Rabs 40 - 20) 0 * signum 40 = 20
    /\ 1 / 2 * 1.225 * (5 * 5) * sail_area boat = 22.96875
    /\ V1.calc_lift_and_drag boat 5 20 = (22.96875, 4.59375)
    /\ Rabs (22.96875 - 22.97) < 0.005
    /\ Rabs (4.59375 - 4.59) < 0.005.
Proof.
  intros M X s v a frame_str b g heave phase a' cl cd k1 k2 boat.
  split; [apply wrap_180_range |].
  split; [reflexivity |].
  split; [reflexivity |].
  split.
  { rewrite Rabs_pos_eq, Rmax_left, signum_pos by lra. lra. }
  split; [subst boat; simpl; lra |].
  split; [now apply V1_lift_drag_5_20 |].
  split; apply Rabs_def1; lra.
Qed.

(** ** Steering kinematics *)

Lemma Checked_div_sound (a b v : R) : Checked.div a b = Some v -> v = a / b.
Proof.
  unfold Checked.div. destruct (Req_dec_T b 0); intros Hv; congruence.
Qed.

Lemma Checked_div_nonzero (a b : R) :
  b <> 0 -> Checked.div a b = Some (a / b).
Proof.
  intros Hb. unfold Checked.div. now destruct (Req_dec_T b 0).
Qed.

(** The checked functions compute what the plain ones do. *)
Lemma Checked_get_turn_circle_sound {M X : Type} (s : Sailboat M X)
    (steering v : R) :
  Checked.get_turn_circle s steering = Some v -> get_turn_circle s steering = v.
Proof.
  unfold Checked.get_turn_circle, get_turn_circle.
  destruct (is_zero steering); [congruence |].
  intros Hv. now apply Checked_div_sound in Hv.
Qed.

Lemma Checked_get_yaw_rate_sound {M X : Type} (s : Sailboat M X)
    (steering speed v : R) :
  Checked.get_yaw_rate s steering speed = Some v ->
  get_yaw_rate s steering speed = v.
Proof.
  unfold Checked.get_yaw_rate, get_yaw_rate.
  destruct (is_zero steering || is_zero speed); [congruence |].
  destruct (Checked.get_turn_circle s steering) as [d |] eqn:Hd;
    [| discriminate].
  apply Checked_get_turn_circle_sound in Hd. rewrite Hd. simpl.
  destruct (Checked.div (M_PI * d) speed) as [t |] eqn:Ht; [| discriminate].
  apply Checked_div_sound in Ht. simpl.
  destruct (Checked.div 360 t) as [r |] eqn:Hr; [| discriminate].
  apply Checked_div_sound in Hr. simpl. congruence.
Qed.

Lemma Checked_get_lat_accel_sound {M X : Type} (s : Sailboat M X)
    (steering speed v : R) :
  Checked.get_lat_accel s steering speed = Some v ->
  get_lat_accel s steering speed = v.
Proof.
  unfold Checked.get_lat_accel, get_lat_accel.
  destruct (Checked.get_yaw_rate s steering speed) as [r |] eqn:Hr;
    [| discriminate].
  apply Checked_get_yaw_rate_sound in Hr. rewrite Hr. simpl. congruence.
Qed.

Lemma get_turn_circle_zero {M X : Type} (s : Sailboat M X) (steering : R) :
  is_zero steering = true ->
  get_turn_circle s steering = 0
  /\ Checked.get_turn_circle s steering = Some 0.
Proof.
  intros Hz. unfold get_turn_circle, Checked.get_turn_circle.
  now rewrite Hz.
Qed.

Lemma get_yaw_rate_zero {M X : Type} (s : Sailboat M X) (steering speed : R) :
  is_zero steering = true \/ is_zero speed = true ->
  get_yaw_rate s steering speed = 0
  /\ Checked.get_yaw_rate s steering speed = Some 0
  /\ get_lat_accel s steering speed = 0
  /\ Checked.get_lat_accel s steering speed = Some 0.
Proof.
  intros Hz.
  assert (Hor : is_zero steering || is_zero speed = true).
  { destruct Hz as [Hz | Hz]; rewrite Hz; [reflexivity | apply orb_true_r]. }
  unfold get_lat_accel, Checked.get_lat_accel, get_yaw_rate,
    Checked.get_yaw_rate.
  rewrite Hor. simpl. unfold radians.
  repeat split; try (f_equal; lra); lra.
Qed.

(** C6.  [get_turn_circle(0)] is 0, [get_yaw_rate(0, speed)] is 0 for every
    speed and [get_yaw_rate(steering, 0)] is 0 for every steering; in each
    of these cases the functions with checked divisions return the zero
    too: the early branch is taken and nothing is divided by zero, in
    [get_turn_circle], [get_yaw_rate] and [get_lat_accel]. *)
Theorem steering_degenerate_inputs :
  forall (M X : Type) (s : Sailboat M X) (steering speed : R),
    get_turn_circle s 0 = 0
    /\ Checked.get_turn_circle s 0 = Some 0
    /\ get_yaw_rate s 0 speed = 0
    /\ Checked.get_yaw_rate s 0 speed = Some 0
    /\ get_yaw_rate s steering 0 = 0
    /\ Checked.get_yaw_rate s steering 0 = Some 0
    /\ Checked.get_lat_accel s 0 speed = Some 0
    /\ Checked.get_lat_accel s steering 0 = Some 0.
Proof.
  intros M X s steering speed.
  destruct (get_turn_circle_zero s 0 is_zero_0) as (Ht & Htc).
  destruct (get_yaw_rate_zero s 0 speed (or_introl is_zero_0))
    as (Hy1 & Hyc1 & _ & Hlc1).
  destruct (get_yaw_rate_zero s steering 0 (or_intror is_zero_0))
    as (Hy2 & Hyc2 & _ & Hlc2).
  repeat split; assumption.
Qed.

Lemma PI_bounds : 3.141592 < PI < 3.141593.
Proof.
  destruct (PI_2_3_7_ineq 3) as [Hlo Hhi].
  unfold PI_2_3_7_tg, tg_alt, Ratan_seq in Hlo, Hhi.
  simpl in Hlo, Hhi.
  split; lra.
Qed.

Lemma INR_fact_S (n : nat) : INR (fact (S n)) = INR (S n) * INR (fact n).
Proof. now rewrite fact_simpl, mult_INR. Qed.

Lemma sin_lb_poly (v : R) :
  sin_lb v = v - v ^ 3 / 6 + v ^ 5 / 120 - v ^ 7 / 5040.
Proof.
  unfold sin_lb, sin_approx. cbn [sum_f_R0]. unfold sin_term.
  cbn [Nat.mul Nat.add]. rewrite !INR_fact_S.
  change (fact 0) with 1%nat. rewrite !S_INR. cbn [INR]. field.
Qed.

Lemma sin_ub_poly (v : R) :
  sin_ub v = v - v ^ 3 / 6 + v ^ 5 / 120 - v ^ 7 / 5040 + v ^ 9 / 362880.
Proof.
  unfold sin_ub, sin_approx. cbn [sum_f_R0]. unfold sin_term.
  cbn [Nat.mul Nat.add]. rewrite !INR_fact_S.
  change (fact 0) with 1%nat. rewrite !S_INR. cbn [INR]. field.
Qed.

(** The sine of an angle between two angles of the first quadrant. *)
Lemma sin_between (lo hi v : R) :
  0 <= lo -> lo < v -> v < hi -> hi <= 1.5 ->
  sin_lb lo < sin v < sin_ub hi.
Proof.
  intros Hlo Hv1 Hv2 Hhi.
  destruct PI_bounds as [Hp1 Hp2].
  assert (H1 : sin lo < sin v) by (apply sin_increasing_1; lra).
  assert (H2 : sin v < sin hi) by (apply sin_increasing_1; lra).
  destruct (SIN lo) as [Ha _]; [lra | lra |].
  destruct (SIN hi) as [_ Hb]; [lra | lra |].
  lra.
Qed.

Lemma sin_35_degrees : 0.573576 < sin (radians 35) < 0.573577.
Proof.
  unfold radians, DEG_TO_RAD, M_PI.
  destruct PI_bounds as [Hp1 Hp2].
  destruct (sin_between 0.610865 0.6108654 (35 * (PI / 180))) as [Ha Hb];
    try lra.
  rewrite sin_lb_poly in Ha. rewrite sin_ub_poly in Hb.
  split; lra.
Qed.

Lemma sin_17_5_degrees : 0.300705 < sin (radians 17.5) < 0.300706.
Proof.
  unfold radians, DEG_TO_RAD, M_PI.
  destruct PI_bounds as [Hp1 Hp2].
  destruct (sin_between 0.3054325 0.3054327 (17.5 * (PI / 180))) as [Ha Hb];
    try lra.
  rewrite sin_lb_poly in Ha. rewrite sin_ub_poly in Hb.
  split; lra.
Qed.

Lemma quotient_between (n d nl nh dl dh : R) :
  0 < nl -> 0 < dl -> nl < n < nh -> dl < d < dh ->
  nl / dh < n / d < nh / dl.
Proof.
  intros Hnl Hdl [Hn1 Hn2] [Hd1 Hd2].
  assert (Hd : 0 < d) by lra.
  assert (Hdh : 0 < dh) by lra.
  split.
  - apply (Rmult_lt_reg_r (d * dh)); [apply Rmult_lt_0_compat; lra |].
    replace (nl / dh * (d * dh)) with (nl * d) by (field; lra).
    replace (n / d * (d * dh)) with (n * dh) by (field; lra).
    apply Rle_lt_trans with (nl * dh).
    + apply Rmult_le_compat_l; lra.
    + apply Rmult_lt_compat_r; lra.
  - apply (Rmult_lt_reg_r (d * dl)); [apply Rmult_lt_0_compat; lra |].
    replace (n / d * (d * dl)) with (n * dl) by (field; lra).
    replace (nh / dl * (d * dl)) with (nh * d) by (field; lra).
    apply Rlt_trans with (nh * dl).
    + apply Rmult_lt_compat_r; lra.
    + apply Rmult_lt_compat_l; lra.
Qed.

Lemma is_zero_half : is_zero 0.5 = false.
Proof.
  apply is_zero_false. rewrite Rabs_pos_eq by lra. unfold FLT_EPSILON. lra.
Qed.

Lemma is_zero_two : is_zero 2 = false.
Proof.
  apply is_zero_false. rewrite Rabs_pos_eq by lra. unfold FLT_EPSILON. lra.
Qed.

Lemma get_turn_circle_nonzero {M X : Type} (s : Sailboat M X) (steering : R) :
  is_zero steering = false ->
  get_turn_circle s steering
  = turning_circle s * sin (radians (steering_angle_max s))
    / sin (radians (steering * steering_angle_max s)).
Proof.
  intros Hz. unfold get_turn_circle. now rewrite Hz.
Qed.

Lemma turn_circle_half {M X : Type} (s : Sailboat M X) :
  steering_angle_max s = 35 -> turning_circle s = 1.8 ->
  get_turn_circle s 0.5 = 1.8 * sin (radians 35) / sin (radians 17.5)
  /\ 3.433376 < get_turn_circle s 0.5 < 3.433394.
Proof.
  intros Hmax Hcircle.
  rewrite get_turn_circle_nonzero by apply is_zero_half.
  rewrite Hmax, Hcircle.
  replace (0.5 * 35) with 17.5 by lra.
  split; [reflexivity |].
  destruct sin_35_degrees as [Ha1 Ha2].
  destruct sin_17_5_degrees as [Hb1 Hb2].
  destruct (quotient_between (1.8 * sin (radians 35)) (sin (radians 17.5))
              (1.8 * 0.573576) (1.8 * 0.573577) 0.300705 0.300706)
    as [Hq1 Hq2]; try lra.
Qed.

Lemma yaw_rate_half_2 {M X : Type} (s : Sailboat M X) :
  steering_angle_max s = 35 -> turning_circle s = 1.8 ->
  get_yaw_rate s 0.5 2 = 360 / (PI * get_turn_circle s 0.5 / 2)
  /\ 66.7511 < get_yaw_rate s 0.5 2 < 66.7516.
Proof.
  intros Hmax Hcircle.
  destruct (turn_circle_half s Hmax Hcircle) as [_ [Hd1 Hd2]].
  unfold get_yaw_rate. rewrite is_zero_half, is_zero_two. simpl.
  unfold M_PI. split; [reflexivity |].
  destruct PI_bounds as [Hp1 Hp2].
  set (d := get_turn_circle s 0.5) in *.
  assert (Hpd : 3.141592 * 3.433376 / 2 < PI * d / 2 < 3.141593 * 3.433394 / 2).
  { split.
    - assert (3.141592 * 3.433376 < PI * d); [| lra].
      apply Rlt_trans with (3.141592 * d).
      + apply Rmult_lt_compat_l; lra.
      + apply Rmult_lt_compat_r; lra.
    - assert (PI * d < 3.141593 * 3.433394); [| lra].
      apply Rlt_trans with (3.141593 * d).
      + apply Rmult_lt_compat_r; lra.
      + apply Rmult_lt_compat_l; lra. }
  assert (Hpos : 0 < PI * d / 2) by lra.
  split.
  - apply (Rmult_lt_reg_r (PI * d / 2)); [assumption |].
    replace (360 / (PI * d / 2) * (PI * d / 2)) with 360 by (field; lra).
    lra.
  - apply (Rmult_lt_reg_r (PI * d / 2)); [assumption |].
    replace (360 / (PI * d / 2) * (PI * d / 2)) with 360 by (field; lra).
    lra.
Qed.

(** C5 as stated fails on its last number: at steering 0.5 and speed
    2 m/s the yaw rate is 66.75 deg/s, more than 0.1 below 66.9. *)
Lemma yaw_rate_not_66_9 :
  66.7511 < get_yaw_rate Plain.boat1 0.5 2 < 66.7516
  /\ ~ Rabs (get_yaw_rate Plain.boat1 0.5 2 - 66.9) <= 0.1.
Proof.
  destruct (yaw_rate_half_2 Plain.boat1 eq_refl eq_refl) as [_ [Hlo Hhi]].
  split; [split; assumption |].
  intros Habs. unfold Rabs in Habs.
  destruct (Rcase_abs (get_yaw_rate Plain.boat1 0.5 2 - 66.9)); lra.
Qed.

(** C5, as amended.  [get_turn_circle] returns 0 for zero steering, and
    for every nonzero steering (as [is_zero] tests it: the magnitude is at
    least FLT_EPSILON) it returns turning_circle * sin(steering_angle_max)
    / sin(steering * steering_angle_max).  For the boat of the constructor
    (steering_angle_max 35 degrees, turning_circle 1.8) and steering 0.5
    this is 1.8 * sin(35 deg) / sin(17.5 deg), which is 3.43 to two
    decimals, and at speed 2 m/s the yaw rate is 360 / ((pi * d) / 2),
    which is 66.75 deg/s to two decimals. *)
Theorem turn_circle_formula :
  forall (M X : Type) (s : Sailboat M X) (steering : R)
         (frame_str : string) (b : Aircraft M X) (g : Vector3f)
         (heave phase : R),
    let boat1 := V1.construct frame_str b g heave phase in
    let boat2 := V2.construct frame_str b g heave phase in
    get_turn_circle s 0 = 0
    /\ (FLT_EPSILON <= Rabs steering ->
        get_turn_circle s steering
        = turning_circle s * sin (radians (steering_angle_max s))
          / sin (radians (steering * steering_angle_max s)))
    /\ get_turn_circle boat1 0.5 = 1.8 * sin (radians 35) / sin (radians 17.5)
    /\ get_turn_circle boat2 0.5 = 1.8 * sin (radians 35) / sin (radians 17.5)
    /\ Rabs (get_turn_circle boat1 0.5 - 3.43) < 0.005
    /\ get_yaw_rate boat1 0.5 2 = 360 / (PI * get_turn_circle boat1 0.5 / 2)
    /\ get_yaw_rate boat2 0.5 2 = get_yaw_rate boat1 0.5 2
    /\ Rabs (get_yaw_rate boat1 0.5 2 - 66.75) < 0.005.
Proof.
  intros M X s steering frame_str b g heave phase boat1 boat2.
  destruct (turn_circle_half boat1 eq_refl eq_refl) as [Hd1 [Hlo1 Hhi1]].
  destruct (turn_circle_half boat2 eq_refl eq_refl) as [Hd2 _].
  destruct (yaw_rate_half_2 boat1 eq_refl eq_refl) as [Hy1 [Hylo Hyhi]].
  destruct (yaw_rate_half_2 boat2 eq_refl eq_refl) as [Hy2 _].
  split; [apply (get_turn_circle_zero s 0 is_zero_0) |].
  split.
  { intros Hsteer. apply get_turn_circle_nonzero. now apply is_zero_false. }
  split; [exact Hd1 |].
  split; [exact Hd2 |].
  split; [apply Rabs_def1; lra |].
  split; [exact Hy1 |].
  split; [rewrite Hy1, Hy2, Hd1, Hd2; reflexivity |].
  apply Rabs_def1; lra.
Qed.

Lemma turn_circle_formula_witness :
  FLT_EPSILON <= Rabs 0.5
  /\ get_turn_circle Plain.boat1 0.5
     = turning_circle Plain.boat1
       * sin (radians (steering_angle_max Plain.boat1))
       / sin (radians (0.5 * steering_angle_max Plain.boat1)).
Proof.
  assert (Hsteer : FLT_EPSILON <= Rabs 0.5).
  { rewrite Rabs_pos_eq by lra. unfold FLT_EPSILON. lra. }
  split; [exact Hsteer |].
  destruct (turn_circle_formula _ _ Plain.boat1 0.5 "sailboat"
              Plain.aircraft0 Vector3f.zero 0 0) as (_ & Hformula & _).
  exact (Hformula Hsteer).
Defined.

(** Within the steering range nothing is divided by zero either: for the
    boat of the constructor, every steering in [-1,1] and every speed, the
    checked functions return a value. *)
Lemma steering_never_divides_by_zero {M X : Type} (s : Sailboat M X)
    (steering speed : R) :
  steering_angle_max s = 35 -> turning_circle s = 1.8 ->
  -1 <= steering <= 1 ->
  Checked.get_lat_accel s steering speed
  = Some (get_lat_accel s steering speed).
Proof.
  intros Hmax Hcircle Hrange.
  unfold Checked.get_lat_accel, get_lat_accel.
  assert (Hyaw : Checked.get_yaw_rate s steering speed
                 = Some (get_yaw_rate s steering speed));
    [| now rewrite Hyaw].
  unfold Checked.get_yaw_rate, get_yaw_rate.
  destruct (is_zero steering || is_zero speed) eqn:Hz; [reflexivity |].
  apply orb_false_elim in Hz. destruct Hz as [Hz1 Hz2].
  assert (Hsteer : steering <> 0) by now apply is_zero_false_inv.
  assert (Hspeed : speed <> 0) by now apply is_zero_false_inv.
  destruct PI_bounds as [Hp1 Hp2].
  destruct sin_35_degrees as [Ha1 _].
  assert (Hsin : sin (radians (steering * steering_angle_max s)) <> 0).
  { rewrite Hmax. unfold radians, DEG_TO_RAD, M_PI.
    destruct (Rlt_dec 0 steering) as [Hpos | Hneg].
    - apply Rgt_not_eq. apply sin_gt_0; nra.
    - apply Rlt_not_eq. apply sin_lt_0_var; nra. }
  assert (Hd : get_turn_circle s steering <> 0).
  { rewrite get_turn_circle_nonzero by assumption.
    rewrite Hmax, Hcircle in *.
    unfold Rdiv. apply Rmult_integral_contrapositive_currified.
    - apply Rmult_integral_contrapositive_currified; lra.
    - now apply Rinv_neq_0_compat. }
  assert (Hdc : Checked.get_turn_circle s steering
                = Some (get_turn_circle s steering)).
  { unfold Checked.get_turn_circle, get_turn_circle. rewrite Hz1.
    now apply Checked_div_nonzero. }
  rewrite Hdc. simpl.
  rewrite Checked_div_nonzero by assumption. simpl.
  rewrite Checked_div_nonzero; [reflexivity |].
  unfold M_PI, Rdiv. apply Rmult_integral_contrapositive_currified.
  - apply Rmult_integral_contrapositive_currified; lra.
  - now apply Rinv_neq_0_compat.
Qed.

(** ** The print timers and the boat *)

(** The boat after a step of the first version, and the time step, do not
    depend on the print timers. *)
Lemma V1_step_statics {M X : Type} `{Matrix3f_ops M} `{Aircraft_ops M X}
    (env : Env) (input : sitl_input) (s : Sailboat M X)
    (st1 st2 : V1.Statics) :
  fst (fst (V1.step env input s st1)) = fst (fst (V1.step env input s st2))
  /\ snd (V1.step env input s st1) = snd (V1.step env input s st2).
Proof.
  unfold V1.step.
  destruct (to_euler _) as [[r p] y]. split; reflexivity.
Qed.

Lemma V1_update_statics {M X : Type} `{Matrix3f_ops M} `{Aircraft_ops M X}
    (env : Env) (input : sitl_input) (sst1 sst2 : Sailboat M X * V1.Statics) :
  fst sst1 = fst sst2 ->
  fst (V1.update env input sst1) = fst (V1.update env input sst2).
Proof.
  intros Hboat. unfold V1.update. rewrite Hboat.
  destruct (V1_step_statics env input (fst sst2) (snd sst1) (snd sst2))
    as [Hs Hdt].
  destruct (V1.step env input (fst sst2) (snd sst1)) as [[s1 st1] dt1].
  destruct (V1.step env input (fst sst2) (snd sst2)) as [[s2 st2] dt2].
  simpl in *. now subst.
Qed.

Lemma V1_run_statics {M X : Type} `{Matrix3f_ops M} `{Aircraft_ops M X}
    (env : Env) (inputs : list sitl_input) :
  forall sst1 sst2 : Sailboat M X * V1.Statics,
    fst sst1 = fst sst2 ->
    fst (V1.run env inputs sst1) = fst (V1.run env inputs sst2).
Proof.
  induction inputs as [| input inputs IH]; intros sst1 sst2 Hboat.
  - exact Hboat.
  - simpl. apply IH. now apply V1_update_statics.
Qed.

(** The relation of runs is the graph of [run]: a run always ends, and in
    one state only. *)
Lemma V1_runs_run {M X : Type} `{Matrix3f_ops M} `{Aircraft_ops M X}
    (env : Env) (inputs : list sitl_input) :
  forall sst sst' : Sailboat M X * V1.Statics,
    V1.runs env inputs sst sst' <-> sst' = V1.run env inputs sst.
Proof.
  induction inputs as [| input inputs IH]; intros sst sst'; split.
  - intros Hruns. now inversion Hruns.
  - intros ->. constructor.
  - intros Hruns. inversion Hruns; subst. now apply IH.
  - intros ->. constructor. now apply IH.
Qed.

Lemma V2_runs_run {M X : Type} `{Matrix3f_ops M} `{Aircraft_ops M X}
    (env : Env) (inputs : list sitl_input) :
  forall s s' : Sailboat M X,
    V2.runs env inputs s s' <-> s' = V2.run env inputs s.
Proof.
  induction inputs as [| input inputs IH]; intros s s'; split.
  - intros Hruns. now inversion Hruns.
  - intros ->. constructor.
  - intros Hruns. inversion Hruns; subst. now apply IH.
  - intros ->. constructor. now apply IH.
Qed.

(** X25.  The print timers of the first version never steer the boat:
    two runs over the same control inputs from the same boat end in the
    same boat (position, attitude, velocities, wave state), whatever the
    values of [last_print_time_s] and [update_time_s] and whatever has
    been printed at their start. *)
Theorem print_timers_do_not_steer :
  forall (M X : Type) (mo : Matrix3f_ops M) (ao : Aircraft_ops M X)
         (env : Env) (inputs : list sitl_input) (s : Sailboat M X)
         (st1 st2 : V1.Statics),
    fst (V1.run env inputs (s, st1)) = fst (V1.run env inputs (s, st2)).
Proof.
  intros M X mo ao env inputs s st1 st2.
  apply V1_run_statics. reflexivity.
Qed.

(** * Further properties of the code *)

(** ** Control inputs *)

Lemma constrain_int16_range (amt low high : Z) :
  (low <= high)%Z -> (low <= constrain_int16 amt low high <= high)%Z.
Proof.
  intros Hlh. unfold constrain_int16.
  destruct (Z.ltb_spec (to_int16 amt) low); [lia |].
  destruct (Z.ltb_spec high (to_int16 amt)); lia.
Qed.

(** X1.  The sail angle that [get_mainsail_angle_bf] derives from the servo
    outputs always lies in the range of the sail type: 0 to 90 degrees for
    the mainsail with a sheet, -90 to 90 degrees for the directly actuated
    wing, whatever the servo values are. *)
Theorem mainsail_angle_range :
  forall (env : Env) (input : sitl_input),
    match sail_type (sitl env) with
    | mainsail_with_sheet => 0 <= V1.get_mainsail_angle_bf env input <= 90
    | directly_actuated_wing =>
        -90 <= V1.get_mainsail_angle_bf env input <= 90
    end.
Proof.
  intros env input. unfold V1.get_mainsail_angle_bf.
  destruct (sail_type (sitl env)); apply constrain_float_range; lra.
Qed.

(** X2.  A steering servo output between 1000 and 2000 maps linearly to a
    steering proportion between -1 and 1: (servo - 1500) / 500. *)
Theorem steering_input_range :
  forall (input : sitl_input),
    (1000 <= servo input STEERING_SERVO_CH <= 2000)%Z ->
    steering_of input = IZR (servo input STEERING_SERVO_CH - 1500) / 500
    /\ -1 <= steering_of input <= 1.
Proof.
  intros input [Hlo Hhi]. unfold steering_of.
  apply IZR_le in Hlo, Hhi. rewrite !minus_IZR. split; lra.
Qed.

Lemma steering_input_range_witness :
  steering_of Plain.input0
  = IZR (servo Plain.input0 STEERING_SERVO_CH - 1500) / 500
  /\ -1 <= steering_of Plain.input0 <= 1.
Proof.
  apply (steering_input_range Plain.input0).
  unfold servo, Plain.input0, STEERING_SERVO_CH. simpl. lia.
Defined.

(** X3.  The throttle force is always between -50 and 50, whatever the
    throttle servo output is; without a motor it is 0, and with a motor and
    a servo output between 1000 and 2000 it is (servo - 1500) * 0.1. *)
Theorem throttle_force_bounds :
  forall (M X : Type) (s : Sailboat M X) (input : sitl_input),
    -50 <= throttle_force_of s input <= 50
    /\ (motor_connected s = false -> throttle_force_of s input = 0)
    /\ (motor_connected s = true ->
        (1000 <= servo input THROTTLE_SERVO_CH <= 2000)%Z ->
        throttle_force_of s input
        = IZR (servo input THROTTLE_SERVO_CH - 1500) * 0.1).
Proof.
  intros M X s input. unfold throttle_force_of.
  destruct (motor_connected s).
  - destruct (constrain_int16_range (servo input THROTTLE_SERVO_CH) 1000 2000)
      as [Hlo Hhi]; [lia |].
    split; [| split; [discriminate |]].
    + apply IZR_le in Hlo, Hhi. rewrite minus_IZR. lra.
    + intros _ Hrange. unfold constrain_int16, to_int16.
      replace ((servo input THROTTLE_SERVO_CH + 32768) mod 65536 - 32768)%Z
        with (servo input THROTTLE_SERVO_CH)
        by (rewrite Z.mod_small; lia).
      destruct (Z.ltb_spec (servo input THROTTLE_SERVO_CH) 1000); [lia |].
      destruct (Z.ltb_spec 2000 (servo input THROTTLE_SERVO_CH)); [lia |].
      reflexivity.
  - split; [lra |]. split; [reflexivity | discriminate].
Qed.

Lemma throttle_force_bounds_witness :
  throttle_force_of Plain.boat1 Plain.input0 = 0.
Proof.
  destruct (throttle_force_bounds _ _ Plain.boat1 Plain.input0)
    as (_ & Hnone & _).
  apply Hnone. reflexivity.
Defined.

(** ** Steering kinematics, continued *)

Lemma is_zero_opp (v : R) : is_zero (- v) = is_zero v.
Proof. unfold is_zero. now rewrite Rabs_Ropp. Qed.

Lemma Rdiv_opp_den (a b : R) : a / - b = - (a / b).
Proof. unfold Rdiv. rewrite Rinv_opp. ring. Qed.

Lemma radians_opp (v : R) : radians (- v) = - radians v.
Proof. unfold radians. ring. Qed.

(** X4.  Port and starboard rudder are mirror images: negating the
    steering negates the turn circle, the yaw rate and the lateral
    acceleration, for every steering and speed. *)
Theorem steering_mirror :
  forall (M X : Type) (s : Sailboat M X) (steering speed : R),
    get_turn_circle s (- steering) = - get_turn_circle s steering
    /\ get_yaw_rate s (- steering) speed = - get_yaw_rate s steering speed
    /\ get_lat_accel s (- steering) speed = - get_lat_accel s steering speed.
Proof.
  intros M X s steering speed.
  assert (Hturn : get_turn_circle s (- steering) = - get_turn_circle s steering).
  { unfold get_turn_circle. rewrite is_zero_opp.
    destruct (is_zero steering); [lra |].
    replace (- steering * steering_angle_max s)
      with (- (steering * steering_angle_max s)) by ring.
    now rewrite radians_opp, sin_neg, Rdiv_opp_den. }
  assert (Hyaw : get_yaw_rate s (- steering) speed
                 = - get_yaw_rate s steering speed).
  { unfold get_yaw_rate. rewrite is_zero_opp, Hturn.
    destruct (is_zero steering || is_zero speed); [lra |].
    cbv zeta.
    replace (M_PI * - get_turn_circle s steering / speed)
      with (- (M_PI * get_turn_circle s steering / speed))
      by (unfold Rdiv; ring).
    apply Rdiv_opp_den. }
  split; [exact Hturn |]. split; [exact Hyaw |].
  unfold get_lat_accel. rewrite Hyaw, radians_opp. ring.
Qed.

Lemma radians_scale (k v : R) : radians (k * v) = k * radians v.
Proof. unfold radians. ring. Qed.

Lemma radians_quadrant (v : R) :
  0 < v <= 90 -> 0 < radians v <= PI / 2.
Proof.
  intros Hv. unfold radians, DEG_TO_RAD, M_PI.
  generalize PI_RGT_0. intros Hpi. split; nra.
Qed.

(** The sine of a part of an angle of the first quadrant. *)
Lemma sin_part (k theta : R) :
  0 < theta <= PI / 2 -> 0 < k <= 1 ->
  0 < sin (k * theta) <= sin theta.
Proof.
  intros Htheta Hk. generalize PI_RGT_0. intros Hpi.
  assert (Hkt : 0 < k * theta <= theta) by nra.
  split.
  - apply sin_gt_0; lra.
  - apply sin_incr_1; lra.
Qed.

Lemma sin_steering_nonzero (steering theta : R) :
  0 < theta <= PI / 2 -> steering <> 0 -> -1 <= steering <= 1 ->
  0 < Rabs (sin (steering * theta)) <= sin theta.
Proof.
  intros Htheta Hnz Hrange.
  destruct (Rlt_dec 0 steering) as [Hpos | Hneg].
  - destruct (sin_part steering theta) as [H1 H2]; [lra | lra |].
    rewrite Rabs_pos_eq by lra. split; assumption.
  - destruct (sin_part (- steering) theta) as [H1 H2]; [lra | lra |].
    replace (steering * theta) with (- (- steering * theta)) by ring.
    rewrite sin_neg, Rabs_Ropp, Rabs_pos_eq by lra. split; assumption.
Qed.

(** X5.  With a maximum steering angle of at most 90 degrees, the turn
    circle at full lock (steering 1) is the configured turning circle, and
    for every nonzero steering in [-1,1] the turn circle is at least that
    wide: the boat never turns tighter than its turning circle. *)
Theorem turn_circle_at_least_minimum :
  forall (M X : Type) (s : Sailboat M X) (steering : R),
    0 < steering_angle_max s <= 90 ->
    0 <= turning_circle s ->
    is_zero steering = false ->
    -1 <= steering <= 1 ->
    get_turn_circle s 1 = turning_circle s
    /\ turning_circle s <= Rabs (get_turn_circle s steering).
Proof.
  intros M X s steering Hmax Hcircle Hz Hrange.
  pose proof (radians_quadrant _ Hmax) as Htheta.
  assert (Hsin : 0 < sin (radians (steering_angle_max s))).
  { generalize PI_RGT_0. intros Hpi. apply sin_gt_0; lra. }
  split.
  - rewrite get_turn_circle_nonzero.
    + rewrite Rmult_1_l. field. lra.
    + apply is_zero_false. rewrite Rabs_pos_eq by lra.
      unfold FLT_EPSILON. lra.
  - rewrite get_turn_circle_nonzero by assumption.
    rewrite radians_scale.
    destruct (sin_steering_nonzero steering (radians (steering_angle_max s)))
      as [Hlo Hhi]; [lra | now apply is_zero_false_inv | lra |].
    set (d := sin (steering * radians (steering_angle_max s))) in *.
    set (n := sin (radians (steering_angle_max s))) in *.
    unfold Rdiv. rewrite !Rabs_mult, Rabs_inv.
    rewrite (Rabs_pos_eq (turning_circle s)) by lra.
    rewrite (Rabs_pos_eq n) by lra.
    apply (Rmult_le_reg_r (Rabs d)); [lra |].
    replace (turning_circle s * n * / Rabs d * Rabs d)
      with (turning_circle s * n) by (field; lra).
    apply Rmult_le_compat_l; lra.
Qed.

Lemma turn_circle_at_least_minimum_witness :
  get_turn_circle Plain.boat1 1 = turning_circle Plain.boat1
  /\ turning_circle Plain.boat1 <= Rabs (get_turn_circle Plain.boat1 0.5).
Proof.
  apply (turn_circle_at_least_minimum _ _ Plain.boat1 0.5).
  - simpl. lra.
  - simpl. lra.
  - apply is_zero_half.
  - lra.
Defined.

(** X6.  Outside the two early returns, the lateral acceleration is the
    centripetal acceleration of the turn: speed^2 over the radius (half the
    turn circle). *)
Theorem lat_accel_centripetal :
  forall (M X : Type) (s : Sailboat M X) (steering speed : R),
    is_zero steering = false ->
    is_zero speed = false ->
    get_turn_circle s steering <> 0 ->
    get_yaw_rate s steering speed
    = 360 * speed / (PI * get_turn_circle s steering)
    /\ get_lat_accel s steering speed
       = speed * speed / (get_turn_circle s steering / 2).
Proof.
  intros M X s steering speed Hz1 Hz2 Hd.
  apply is_zero_false_inv in Hz2 as Hspeed.
  assert (Hyaw : get_yaw_rate s steering speed
                 = 360 * speed / (PI * get_turn_circle s steering)).
  { unfold get_yaw_rate. rewrite Hz1, Hz2. simpl. unfold M_PI.
    field. repeat split; try assumption. apply PI_neq0. }
  split; [exact Hyaw |].
  unfold get_lat_accel. rewrite Hyaw. unfold radians, DEG_TO_RAD, M_PI.
  field. split; [assumption | apply PI_neq0].
Qed.

Lemma lat_accel_centripetal_witness :
  get_lat_accel Plain.boat1 0.5 2
  = 2 * 2 / (get_turn_circle Plain.boat1 0.5 / 2).
Proof.
  apply (lat_accel_centripetal _ _ Plain.boat1 0.5 2).
  - apply is_zero_half.
  - apply is_zero_two.
  - destruct (turn_circle_half Plain.boat1 eq_refl eq_refl) as [_ [Hlo _]].
    lra.
Defined.

Lemma constructed_turn_circle_checked {M X : Type} (s : Sailboat M X)
    (steering : R) :
  steering_angle_max s = 35 -> -1 <= steering <= 1 ->
  Checked.get_turn_circle s steering = Some (get_turn_circle s steering).
Proof.
  intros Hmax Hrange. unfold Checked.get_turn_circle, get_turn_circle.
  destruct (is_zero steering) eqn:Hz; [reflexivity |].
  apply Checked_div_nonzero. rewrite Hmax, radians_scale.
  destruct (sin_steering_nonzero steering (radians 35)) as [Hlo _].
  - apply radians_quadrant. lra.
  - now apply is_zero_false_inv.
  - assumption.
  - intros Hsin. rewrite Hsin, Rabs_R0 in Hlo. lra.
Qed.

(** X7.  For the boats of both constructors, every steering in [-1,1] and
    every speed, none of the three steering functions divides by zero: the
    functions with checked divisions return the value of the plain ones. *)
Theorem steering_range_divisions_safe :
  forall (M X : Type) (frame_str : string) (b : Aircraft M X)
         (g : Vector3f) (heave phase steering speed : R),
    -1 <= steering <= 1 ->
    let boat1 := V1.construct frame_str b g heave phase in
    let boat2 := V2.construct frame_str b g heave phase in
    Checked.get_turn_circle boat1 steering
      = Some (get_turn_circle boat1 steering)
    /\ Checked.get_yaw_rate boat1 steering speed
      = Some (get_yaw_rate boat1 steering speed)
    /\ Checked.get_lat_accel boat1 steering speed
      = Some (get_lat_accel boat1 steering speed)
    /\ Checked.get_turn_circle boat2 steering
      = Some (get_turn_circle boat2 steering)
    /\ Checked.get_yaw_rate boat2 steering speed
      = Some (get_yaw_rate boat2 steering speed)
    /\ Checked.get_lat_accel boat2 steering speed
      = Some (get_lat_accel boat2 steering speed).
Proof.
  intros M X frame_str b g heave phase steering speed Hrange boat1 boat2.
  assert (Hall : forall boat : Sailboat M X,
    steering_angle_max boat = 35 -> turning_circle boat = 1.8 ->
    Checked.get_turn_circle boat steering
      = Some (get_turn_circle boat steering)
    /\ Checked.get_yaw_rate boat steering speed
      = Some (get_yaw_rate boat steering speed)
    /\ Checked.get_lat_accel boat steering speed
      = Some (get_lat_accel boat steering speed)).
  { intros boat Hmax Hcircle.
    pose proof (steering_never_divides_by_zero boat steering speed
                  Hmax Hcircle Hrange) as Hlat.
    split; [now apply constructed_turn_circle_checked |].
    split; [| exact Hlat].
    unfold Checked.get_lat_accel in Hlat.
    destruct (Checked.get_yaw_rate boat steering speed) as [r |] eqn:Hr;
      [| discriminate].
    apply Checked_get_yaw_rate_sound in Hr. now rewrite Hr. }
  destruct (Hall boat1 eq_refl eq_refl) as (H1 & H2 & H3).
  destruct (Hall boat2 eq_refl eq_refl) as (H4 & H5 & H6).
  repeat split; assumption.
Qed.

Lemma steering_range_divisions_safe_witness :
  Checked.get_lat_accel Plain.boat1 (-1) 3
  = Some (get_lat_accel Plain.boat1 (-1) 3).
Proof.
  destruct (steering_range_divisions_safe _ _ "sailboat" Plain.aircraft0
              Vector3f.zero 0 0 (-1) 3) as (_ & _ & Hlat & _).
  - lra.
  - exact Hlat.
Defined.

(** ** The heel torque balance, armed *)

Lemma heel_acceleration_armed (env : Env) (force_heel roll rate : R) :
  get_soft_armed env = true ->
  V1.get_heel_angular_acceleration env force_heel roll rate
  = (force_heel * 200 * cos roll - 1.25 * sin roll - 0.025 * rate) / 187.5.
Proof.
  intros Harmed. unfold V1.get_heel_angular_acceleration.
  rewrite Harmed. simpl. unfold sq. lra.
Qed.

(** X8.  When armed, the righting moment of the keel opposes the roll:
    with no heel force and no roll rate the angular acceleration is
    negative for a roll angle between 0 and pi, positive for a roll angle
    between -pi and 0, and zero for the upright boat. *)
Theorem keel_righting_moment :
  forall (env : Env) (roll : R),
    get_soft_armed env = true ->
    V1.get_heel_angular_acceleration env 0 0 0 = 0
    /\ (0 < roll < PI -> V1.get_heel_angular_acceleration env 0 roll 0 < 0)
    /\ (- PI < roll < 0 -> 0 < V1.get_heel_angular_acceleration env 0 roll 0).
Proof.
  intros env roll Harmed.
  rewrite !heel_acceleration_armed by assumption.
  split; [rewrite sin_0, cos_0; lra |].
  split; intros Hroll.
  - assert (0 < sin roll) by (apply sin_gt_0; lra). lra.
  - assert (sin roll < 0) by (apply sin_lt_0_var; lra). lra.
Qed.

Lemma keel_righting_moment_witness :
  V1.get_heel_angular_acceleration Plain.env_armed 0 0 0 = 0.
Proof.
  destruct (keel_righting_moment Plain.env_armed 0) as (Hup & _).
  - reflexivity.
  - exact Hup.
Defined.

(** X9.  When armed, the angular acceleration grows with the heel force as
    long as the roll angle is within 90 degrees of upright, and falls with
    the roll rate (the damping of the keel), whatever the roll angle. *)
Theorem heel_acceleration_monotone :
  forall (env : Env) (force1 force2 roll rate1 rate2 : R),
    get_soft_armed env = true ->
    (- (PI / 2) < roll < PI / 2 -> force1 < force2 ->
     V1.get_heel_angular_acceleration env force1 roll rate1
     < V1.get_heel_angular_acceleration env force2 roll rate1)
    /\ (rate1 < rate2 ->
        V1.get_heel_angular_acceleration env force1 roll rate2
        < V1.get_heel_angular_acceleration env force1 roll rate1).
Proof.
  intros env force1 force2 roll rate1 rate2 Harmed.
  rewrite !heel_acceleration_armed by assumption.
  split.
  - intros Hroll Hforce.
    assert (Hcos : 0 < cos roll) by (apply cos_gt_0; lra).
    assert (force1 * cos roll < force2 * cos roll)
      by (apply Rmult_lt_compat_r; assumption).
    lra.
  - intros Hrate. lra.
Qed.

Lemma heel_acceleration_monotone_witness :
  V1.get_heel_angular_acceleration Plain.env_armed 1 0 0.2
  < V1.get_heel_angular_acceleration Plain.env_armed 1 0 0.1.
Proof.
  destruct (heel_acceleration_monotone Plain.env_armed 1 2 0 0.1 0.2)
    as (_ & Hdamp).
  - reflexivity.
  - apply Hdamp. lra.
Defined.

(** ** Lift and drag, continued *)

Lemma wrap_180_id_signed (v : R) : -180 < v <= 180 -> wrap_180 v = v.
Proof.
  intros Hv. destruct (Rle_dec 0 v) as [Hpos | Hneg].
  - apply wrap_180_id. lra.
  - unfold wrap_180, wrap_360, wrap_period.
    rewrite <- (Int_part_spec (v / 360) (-1)) by (simpl; lra).
    rewrite (proj2 (Rltb_lt 180 (v - 360 * -1))) by lra. lra.
Qed.

Lemma signum_opp (v : R) : signum (- v) = - signum v.
Proof.
  destruct (Rtotal_order v 0) as [Hneg | [-> | Hpos]].
  - rewrite signum_pos, signum_neg by lra. lra.
  - rewrite Ropp_0, signum_0. lra.
  - rewrite signum_neg, signum_pos by lra. lra.
Qed.

Lemma signum_abs_le (v : R) : Rabs (signum v) <= 1.
Proof.
  apply Rabs_le.
  destruct (Rtotal_order v 0) as [Hneg | [-> | Hpos]].
  - rewrite signum_neg by lra. lra.
  - rewrite signum_0. lra.
  - rewrite signum_pos by lra. lra.
Qed.

(** X10.  Lift changes sign with the tack and drag does not: for an angle
    of attack strictly between -180 and 180 degrees, negating the angle
    negates the lift and leaves the drag, in both versions. *)
Theorem lift_odd_drag_even :
  forall (M X : Type) (s : Sailboat M X) (v a : R),
    -180 < a < 180 ->
    V1.calc_lift_and_drag s v (- a)
    = (- fst (V1.calc_lift_and_drag s v a), snd (V1.calc_lift_and_drag s v a))
    /\ V2.calc_lift_and_drag s v (- a)
    = (- fst (V2.calc_lift_and_drag s v a), snd (V2.calc_lift_and_drag s v a)).
Proof.
  intros M X s v a Ha.
  unfold V1.calc_lift_and_drag, V2.calc_lift_and_drag. cbv zeta.
  rewrite !(wrap_180_id_signed a), !(wrap_180_id_signed (- a)) by lra.
  rewrite !Rabs_Ropp, !signum_opp. simpl. split; f_equal; ring.
Qed.

Lemma lift_odd_drag_even_witness :
  V1.calc_lift_and_drag Plain.boat1 5 (- 20)
  = (- fst (V1.calc_lift_and_drag Plain.boat1 5 20),
     snd (V1.calc_lift_and_drag Plain.boat1 5 20)).
Proof.
  apply (lift_odd_drag_even _ _ Plain.boat1 5 20). lra.
Defined.

(** An interpolated coefficient never leaves the range of the tabulated
    ones (no extrapolation), for a table with ascending angles. *)
Lemma linear_interpolate_bounds (lo hi v : R) (curve : list Vector2F) :
  curve <> [] ->
  Sorted (fun p q : Vector2F => fst p < fst q) curve ->
  Forall (fun p : Vector2F => lo <= snd p <= hi) curve ->
  lo <= linear_interpolate v curve <= hi.
Proof.
  induction curve as [| [a0 c0] rest IH]; intros Hne Hsorted Hall;
    [congruence |].
  inversion Hall as [| p l Hc0 Hrest]; subst. simpl in Hc0.
  inversion Hsorted as [| p l Hsrest Hhd]; subst.
  simpl. destruct (Rleb v a0) eqn:Hle; [assumption |].
  apply Rleb_gt in Hle.
  destruct rest as [| [a1 c1] rest']; [assumption |].
  inversion Hrest as [| p l Hc1 _]; subst. simpl in Hc1.
  inversion Hhd as [| p l Ha]; subst. simpl in Ha.
  destruct (Rltb v a1) eqn:Hlt.
  - apply Rltb_lt in Hlt.
    assert (Ht : 0 <= (v - a0) / (a1 - a0) <= 1).
    { split.
      - apply Rmult_le_pos; [lra | left; apply Rinv_0_lt_compat; lra].
      - apply (Rmult_le_reg_r (a1 - a0)); [lra |].
        replace ((v - a0) / (a1 - a0) * (a1 - a0)) with (v - a0)
          by (field; lra).
        lra. }
    set (t := (v - a0) / (a1 - a0)) in *. nra.
  - apply IH; [discriminate | assumption | assumption].
Qed.

Ltac curve_sorted :=
  repeat (apply Sorted_cons;
          [| first [ apply HdRel_nil | apply HdRel_cons; simpl; lra ]]);
  apply Sorted_nil.

Ltac curve_within :=
  repeat (apply Forall_cons; [simpl; lra |]); apply Forall_nil.

Lemma CD_curve_bounds (v : R) : 0.1 <= linear_interpolate v CD_curve <= 1.95.
Proof.
  apply linear_interpolate_bounds; unfold CD_curve;
    [discriminate | curve_sorted | curve_within].
Qed.

Lemma CL_curve_bounds (v : R) : -1.1 <= linear_interpolate v CL_curve <= 1.1.
Proof.
  apply linear_interpolate_bounds; unfold CL_curve;
    [discriminate | curve_sorted | curve_within].
Qed.

(** X11.  With a sail area that is not negative, the drag is never
    negative and at most 1.95 k, and the lift is at most 1.1 k in
    magnitude, for every wind speed and angle of attack; k is
    1/2 * 1.225 * v^2 * sail_area in the first version and
    v^2 * sail_area in the second. *)
Theorem lift_and_drag_bounds :
  forall (M X : Type) (s : Sailboat M X) (v a : R),
    0 <= sail_area s ->
    let k1 := 1 / 2 * 1.225 * (v * v) * sail_area s in
    let k2 := v * v * sail_area s in
    0 <= snd (V1.calc_lift_and_drag s v a) <= 1.95 * k1
    /\ Rabs (fst (V1.calc_lift_and_drag s v a)) <= 1.1 * k1
    /\ 0 <= snd (V2.calc_lift_and_drag s v a) <= 1.95 * k2
    /\ Rabs (fst (V2.calc_lift_and_drag s v a)) <= 1.1 * k2.
Proof.
  intros M X s v a Harea k1 k2.
  assert (Hvv : 0 <= v * v) by nra.
  assert (Hk1 : 0 <= k1) by (subst k1; nra).
  assert (Hk2 : 0 <= k2) by (subst k2; nra).
  unfold V1.calc_lift_and_drag, V2.calc_lift_and_drag, sq.
  cbv zeta. cbn [fst snd]. fold k1 k2.
  pose proof (CD_curve_bounds (Rabs (wrap_180 a))) as Hcd.
  pose proof (CL_curve_bounds (Rabs (wrap_180 a))) as Hcl.
  pose proof (signum_abs_le (wrap_180 a)) as Hsig.
  set (cd := linear_interpolate (Rabs (wrap_180 a)) CD_curve) in *.
  set (cl := linear_interpolate (Rabs (wrap_180 a)) CL_curve) in *.
  assert (Hclabs : Rabs cl <= 1.1) by (apply Rabs_le; lra).
  assert (Hdrag : forall k, 0 <= k -> 0 <= cd * k <= 1.95 * k).
  { intros k Hk. split; nra. }
  assert (Hlift : forall k, 0 <= k ->
            Rabs (cl * k * signum (wrap_180 a)) <= 1.1 * k).
  { intros k Hk. rewrite !Rabs_mult, (Rabs_pos_eq k) by assumption.
    pose proof (Rabs_pos cl) as Hpos.
    apply Rle_trans with (Rabs cl * k * 1).
    - apply Rmult_le_compat_l; [nra | assumption].
    - nra. }
  split; [apply Hdrag; assumption |].
  split; [apply Hlift; assumption |].
  split; [apply Hdrag; assumption |].
  apply Hlift; assumption.
Qed.

Lemma lift_and_drag_bounds_witness :
  0 <= snd (V1.calc_lift_and_drag Plain.boat1 7 130).
Proof.
  destruct (lift_and_drag_bounds _ _ Plain.boat1 7 130) as ((Hdrag & _) & _).
  - simpl. lra.
  - exact Hdrag.
Defined.

Lemma V1_lift_drag_no_wind {M X : Type} (s : Sailboat M X) (a : R) :
  V1.calc_lift_and_drag s 0 a = (0, 0).
Proof.
  unfold V1.calc_lift_and_drag, sq. cbv zeta. f_equal; ring.
Qed.

Lemma V2_lift_drag_no_wind {M X : Type} (s : Sailboat M X) (a : R) :
  V2.calc_lift_and_drag s 0 a = (0, 0).
Proof.
  unfold V2.calc_lift_and_drag. cbv zeta. f_equal; ring.
Qed.

(** X12.  Without apparent wind there is no sail force: at wind speed 0
    lift and drag are 0 for every angle of attack, and in a step whose
    apparent wind speed is 0 the forward force and the heel force are 0,
    in both versions. *)
Theorem no_wind_no_force :
  forall (M X : Type) (mo : Matrix3f_ops M)
         (env : Env) (input : sitl_input) (s : Sailboat M X) (a : R),
    let f1 := V1.sail_forces env input s in
    let f2 := V2.sail_forces env input s in
    V1.calc_lift_and_drag s 0 a = (0, 0)
    /\ V2.calc_lift_and_drag s 0 a = (0, 0)
    /\ (wind_apparent_speed f1 = 0 -> force_fwd f1 = 0 /\ force_heel f1 = 0)
    /\ (wind_apparent_speed f2 = 0 -> force_fwd f2 = 0 /\ force_heel f2 = 0).
Proof.
  intros M X mo env input s a f1 f2. subst f1 f2.
  split; [apply V1_lift_drag_no_wind |].
  split; [apply V2_lift_drag_no_wind |].
  split; intros Hcalm.
  - pose proof (V1_sail_forces_eq env input s) as Heq. cbv zeta in Heq.
    destruct Heq as (Hfwd & Hheel & Hcalc).
    rewrite Hcalm, V1_lift_drag_no_wind in Hcalc.
    pose proof (f_equal fst Hcalc) as Hlift.
    pose proof (f_equal snd Hcalc) as Hdrag.
    cbn [fst snd] in Hlift, Hdrag.
    rewrite Hfwd, Hheel, Hlift, Hdrag. split; ring.
  - pose proof (V2_sail_forces_eq env input s) as Heq. cbv zeta in Heq.
    destruct Heq as (Hfwd & Hheel & Hcalc).
    rewrite Hcalm, V2_lift_drag_no_wind in Hcalc.
    pose proof (f_equal fst Hcalc) as Hlift.
    pose proof (f_equal snd Hcalc) as Hdrag.
    cbn [fst snd] in Hlift, Hdrag.
    rewrite Hfwd, Hheel, Hlift, Hdrag. split; ring.
Qed.

Lemma rest_wind_speed :
  wind_apparent_speed
    (V1.sail_forces Plain.env_armed Plain.input0 Plain.boat1) = 0.
Proof.
  unfold V1.sail_forces.
  destruct (V1.calc_lift_and_drag _ _ _) as [lift drag].
  cbn [wind_apparent_speed].
  unfold safe_sqrt, sq, Plain.boat1, V1.construct.
  cbn [base velocity_ef wind_ef dcm mul_transpose Plain.matrix_ops
       Plain.aircraft0].
  unfold Plain.m_mul_transpose, Plain.m_mul_vector, Plain.m_transposed,
    Plain.dot, Plain.identity, Vector3f.sub, Vector3f.zero.
  cbn [Plain.a Plain.b Plain.c Vector3f.x Vector3f.y Vector3f.z].
  match goal with |- sqrt ?e = 0 => replace e with 0 by ring end.
  apply sqrt_0.
Qed.

Lemma no_wind_no_force_witness :
  force_fwd (V1.sail_forces Plain.env_armed Plain.input0 Plain.boat1) = 0
  /\ force_heel (V1.sail_forces Plain.env_armed Plain.input0 Plain.boat1) = 0.
Proof.
  destruct (no_wind_no_force _ _ _ Plain.env_armed Plain.input0 Plain.boat1 0)
    as (_ & _ & Hcalm & _).
  apply Hcalm. apply rest_wind_speed.
Defined.

(** ** The sheeted sail, continued *)

Lemma CL_at_0 : linear_interpolate 0 CL_curve = 0.
Proof. unfold CL_curve, linear_interpolate. rcmp. reflexivity. Qed.

Lemma CD_at_0 : linear_interpolate 0 CD_curve = 0.1.
Proof. unfold CD_curve, linear_interpolate. rcmp. reflexivity. Qed.

Lemma MAX_slack (w s : R) : Rabs w <= s -> MAX (Rabs w - s) 0 = 0.
Proof. intros Hslack. rewrite MAX_Rmax. apply Rmax_right. lra. Qed.

(** X13.  A slack sheet gives no lift: for the mainsail with a sheet, when
    the apparent wind angle is within the sail angle (|w| <= s) the angle
    of attack is 0, the lift is 0 and the drag is the drag at angle 0,
    0.1 k, in both versions. *)
Theorem slack_sheet_no_lift :
  forall (M X : Type) (s : Sailboat M X)
         (env : Env) (input : sitl_input) (v w sail_angle : R),
    sail_type (sitl env) = mainsail_with_sheet ->
    let s2 :=
      constrain_float (IZR (servo input MAINSAIL_SERVO_CH - 1000) / 1000 * 90)
        0 90 in
    (Rabs w <= sail_angle ->
     V1.angle_of_attack env w sail_angle = 0
     /\ V1.calc_lift_and_drag s v (V1.angle_of_attack env w sail_angle)
        = (0, 0.1 * (1 / 2 * 1.225 * (v * v) * sail_area s)))
    /\ (Rabs w <= s2 ->
        V2.angle_of_attack env input w = 0
        /\ V2.calc_lift_and_drag s v (V2.angle_of_attack env input w)
           = (0, 0.1 * (v * v * sail_area s))).
Proof.
  intros M X s env input v w sail_angle Hsheet s2.
  split; intros Hslack.
  - assert (Haoa : V1.angle_of_attack env w sail_angle = 0).
    { unfold V1.angle_of_attack. rewrite Hsheet, MAX_slack by assumption.
      ring. }
    split; [exact Haoa |]. rewrite Haoa.
    unfold V1.calc_lift_and_drag, sq. cbv zeta.
    rewrite wrap_180_id by lra. rewrite Rabs_R0, CL_at_0, CD_at_0, signum_0.
    f_equal; ring.
  - assert (Haoa : V2.angle_of_attack env input w = 0).
    { unfold V2.angle_of_attack. rewrite Hsheet. simpl. fold s2.
      rewrite MAX_slack by assumption. ring. }
    split; [exact Haoa |]. rewrite Haoa.
    unfold V2.calc_lift_and_drag. cbv zeta.
    rewrite wrap_180_id by lra. rewrite Rabs_R0, CL_at_0, CD_at_0, signum_0.
    f_equal; ring.
Qed.

Lemma slack_sheet_no_lift_witness :
  V1.angle_of_attack Plain.env_armed 30 45 = 0.
Proof.
  destruct (slack_sheet_no_lift _ _ Plain.boat1 Plain.env_armed Plain.input0
              5 30 45) as (Hv1 & _).
  - reflexivity.
  - apply Hv1. rewrite Rabs_pos_eq; lra.
Defined.

(** X14.  For the mainsail with a sheet and a sail angle that is not
    negative, trimming never turns the sail past the wind: the angle of
    attack is at most the apparent wind angle in magnitude (both versions)
    and, in the first version, never of the opposite sign. *)
Theorem sheet_angle_within_wind :
  forall (env : Env) (input : sitl_input) (w sail_angle : R),
    sail_type (sitl env) = mainsail_with_sheet ->
    0 <= sail_angle ->
    Rabs (V1.angle_of_attack env w sail_angle) <= Rabs w
    /\ 0 <= V1.angle_of_attack env w sail_angle * w
    /\ Rabs (V2.angle_of_attack env input w) <= Rabs w.
Proof.
  intros env input w sail_angle Hsheet Hsail.
  assert (Hmax : forall s, 0 <= s -> 0 <= Rmax (Rabs w - s) 0 <= Rabs w).
  { intros s Hs. pose proof (Rabs_pos w).
    split; [apply Rmax_r | apply Rmax_lub; lra]. }
  unfold V1.angle_of_attack, V2.angle_of_attack. rewrite Hsheet. simpl.
  rewrite !MAX_Rmax.
  destruct (Hmax sail_angle Hsail) as [Hlo Hhi].
  set (m := Rmax (Rabs w - sail_angle) 0) in *.
  split; [| split].
  - rewrite Rabs_mult, (Rabs_pos_eq m) by assumption.
    pose proof (signum_abs_le w). pose proof (Rabs_pos (signum w)). nra.
  - destruct (Rtotal_order w 0) as [Hneg | [-> | Hpos]].
    + rewrite signum_neg by assumption. nra.
    + lra.
    + rewrite signum_pos by assumption. nra.
  - destruct (Hmax (constrain_float
                      (IZR (servo input MAINSAIL_SERVO_CH - 1000) / 1000 * 90)
                      0 90)) as [Hlo2 Hhi2].
    { apply constrain_float_range. lra. }
    rewrite Rabs_mult, Rabs_pos_eq by assumption.
    unfold V2.sign_of. destruct (is_negative w).
    + replace (Rabs (-1)) with 1; [lra |].
      unfold Rabs. destruct (Rcase_abs (-1)); lra.
    + rewrite Rabs_R1. lra.
Qed.

Lemma sheet_angle_within_wind_witness :
  Rabs (V1.angle_of_attack Plain.env_armed (-60) 45) <= Rabs (-60).
Proof.
  destruct (sheet_angle_within_wind Plain.env_armed Plain.input0 (-60) 45)
    as (Hmag & _).
  - reflexivity.
  - lra.
  - exact Hmag.
Defined.

(** ** The wave generator, continued *)

(** X15.  Waves never induce yaw and never touch the vehicle: after every
    call of [update_wave] the z component of the gyro disturbance is 0,
    the base object and the constants of the boat are as before, and with
    the waves on in a mode other than 2 the heave is 0. *)
Theorem wave_never_yaws :
  forall (M X : Type) (mo : Matrix3f_ops M)
         (env : Env) (delta_time : R) (s : Sailboat M X),
    let s' := update_wave env delta_time s in
    Vector3f.z (wave_gyro s') = 0
    /\ base s' = base s
    /\ steering_angle_max s' = steering_angle_max s
    /\ turning_circle s' = turning_circle s
    /\ sail_area s' = sail_area s
    /\ motor_connected s' = motor_connected s
    /\ (waves_off env = false ->
        Wave.enable (wave (sitl env)) <> 2%Z ->
        wave_heave s' = 0).
Proof.
  intros M X mo env delta_time s. cbv zeta. unfold update_wave.
  destruct (to_euler (dcm (base s))) as [[r p] y].
  destruct (waves_off env).
  - cbn [set_wave wave_gyro base steering_angle_max turning_circle sail_area
         motor_connected wave_heave Vector3f.scale Vector3f.z].
    unfold WAVE_ANGLE_GAIN.
    repeat split; try reflexivity; try discriminate. ring.
  - cbn [set_wave wave_gyro base steering_angle_max turning_circle sail_area
         motor_connected wave_heave Vector3f.z].
    repeat split; try reflexivity.
    intros _ Hmode.
    destruct (Z.eqb_spec (Wave.enable (wave (sitl env))) 2);
      [contradiction | reflexivity].
Qed.

Lemma wave_never_yaws_witness :
  wave_heave
    (update_wave
       (mk_Env (mk_SITL (Wave.mk 1 0 1 10 0.5) (Tide.mk 0 0)
                  mainsail_with_sheet) true)
       0.001 Plain.boat1) = 0.
Proof.
  destruct (wave_never_yaws _ _ _
              (mk_Env (mk_SITL (Wave.mk 1 0 1 10 0.5) (Tide.mk 0 0)
                         mainsail_with_sheet) true)
              0.001 Plain.boat1) as (_ & _ & _ & _ & _ & _ & Hheave).
  apply Hheave.
  - unfold waves_off, is_zero. cbn [get_soft_armed sitl wave Wave.enable
      Wave.amp Z.eqb negb orb].
    apply Rltb_ge. rewrite Rabs_pos_eq by lra. unfold FLT_EPSILON. lra.
  - discriminate.
Defined.

(** ** The print timers of the first version *)

Lemma V1_step_timers {M X : Type} `{Matrix3f_ops M} `{Aircraft_ops M X}
    (env : Env) (input : sitl_input) (s : Sailboat M X) (st : V1.Statics) :
  let st' := snd (fst (V1.step env input s st)) in
  V1.update_time_s st' = V1.update_time_s st + snd (V1.step env input s st)
  /\ V1.update_time_s st' - V1.last_print_time_s st' <= 1
  /\ (V1.printed st' = V1.printed st
      \/ exists v : R, V1.printed st' = V1.printed st ++ [v]).
Proof.
  cbv zeta. unfold V1.step.
  destruct (to_euler _) as [[r p] y].
  cbn [fst snd].
  match goal with
  | |- context [Rltb 1 ?d] => destruct (Rltb 1 d) eqn:Hprint
  end.
  - cbn [V1.update_time_s V1.last_print_time_s V1.printed].
    split; [reflexivity |]. split; [lra |].
    right. eexists. reflexivity.
  - apply Rltb_ge in Hprint.
    cbn [V1.update_time_s V1.last_print_time_s V1.printed].
    split; [reflexivity |]. split; [exact Hprint |].
    left. reflexivity.
Qed.

Lemma V1_update_statics_eq {M X : Type} `{Matrix3f_ops M} `{Aircraft_ops M X}
    (env : Env) (input : sitl_input) (sst : Sailboat M X * V1.Statics) :
  snd (V1.update env input sst)
  = snd (fst (V1.step env input (fst sst) (snd sst))).
Proof.
  unfold V1.update.
  now destruct (V1.step env input (fst sst) (snd sst)) as [[s st] dt].
Qed.

(** X16.  The print timers of the first version: a step advances
    [update_time_s] by the time step, prints at most one line, and leaves
    at most one second between [last_print_time_s] and [update_time_s];
    so a run prints at most one line per step. *)
Theorem print_timer_invariant :
  forall (M X : Type) (mo : Matrix3f_ops M) (ao : Aircraft_ops M X)
         (env : Env) (input : sitl_input) (inputs : list sitl_input)
         (s : Sailboat M X) (st : V1.Statics),
    let st' := snd (V1.update env input (s, st)) in
    V1.update_time_s st'
      = V1.update_time_s st + IZR (frame_time_us (update_wind env input (base s))) * 1.0e-6
    /\ V1.update_time_s st' - V1.last_print_time_s st' <= 1
    /\ (V1.printed st' = V1.printed st
        \/ exists v : R, V1.printed st' = V1.printed st ++ [v])
    /\ (List.length (V1.printed (snd (V1.run env inputs (s, st))))
        <= List.length (V1.printed st) + List.length inputs)%nat.
Proof.
  intros M X mo ao env input inputs s st. cbv zeta.
  rewrite V1_update_statics_eq. cbn [fst snd].
  destruct (V1_step_timers env input s st) as (Htime & Hgap & Hprint).
  split.
  { rewrite Htime. f_equal. unfold V1.step.
    destruct (to_euler _) as [[r p] y]. reflexivity. }
  split; [exact Hgap |]. split; [exact Hprint |].
  clear Htime Hgap Hprint.
  assert (Hrun : forall sst : Sailboat M X * V1.Statics,
            (List.length (V1.printed (snd (V1.run env inputs sst)))
             <= List.length (V1.printed (snd sst)) + List.length inputs)%nat).
  { unfold V1.run.
    induction inputs as [| i inputs IH]; intros sst; cbn [fold_left List.length].
    - lia.
    - specialize (IH (V1.update env i sst)).
      rewrite V1_update_statics_eq in IH.
      destruct (V1_step_timers env i (fst sst) (snd sst))
        as (_ & _ & [Hsame | [v Hgrow]]).
      + rewrite Hsame in IH. lia.
      + rewrite Hgrow, length_app in IH. cbn [List.length] in IH. lia. }
  apply (Hrun (s, st)).
Qed.

(** ** Runs *)

Lemma V1_step_config {M X : Type} `{Matrix3f_ops M} `{Aircraft_ops M X}
    (env : Env) (input : sitl_input) (s : Sailboat M X) (st : V1.Statics) :
  let s' := fst (fst (V1.step env input s st)) in
  steering_angle_max s' = steering_angle_max s
  /\ turning_circle s' = turning_circle s
  /\ sail_area s' = sail_area s
  /\ motor_connected s' = motor_connected s
  /\ wave_gyro s' = wave_gyro s
  /\ wave_heave s' = wave_heave s
  /\ wave_phase s' = wave_phase s.
Proof.
  cbv zeta. unfold V1.step.
  destruct (to_euler _) as [[r p] y]. cbn [fst snd].
  repeat split; reflexivity.
Qed.

Lemma V2_step_config {M X : Type} `{Matrix3f_ops M} `{Aircraft_ops M X}
    (env : Env) (input : sitl_input) (s : Sailboat M X) :
  let s' := fst (V2.step env input s) in
  steering_angle_max s' = steering_angle_max s
  /\ turning_circle s' = turning_circle s
  /\ sail_area s' = sail_area s
  /\ motor_connected s' = motor_connected s
  /\ wave_gyro s' = wave_gyro s
  /\ wave_heave s' = wave_heave s
  /\ wave_phase s' = wave_phase s.
Proof.
  cbv zeta. unfold V2.step.
  destruct (to_euler (normalize (rotate _ _))) as [[roll pitch] yaw].
  destruct (to_euler _) as [[r p] y]. cbn [fst snd].
  repeat split; reflexivity.
Qed.

Lemma finish_step_config {M X : Type} `{Matrix3f_ops M} `{Aircraft_ops M X}
    (env : Env) (delta_time : R) (s : Sailboat M X) :
  let s' := finish_step env delta_time s in
  steering_angle_max s' = steering_angle_max s
  /\ turning_circle s' = turning_circle s
  /\ sail_area s' = sail_area s
  /\ motor_connected s' = motor_connected s.
Proof.
  cbv zeta. unfold finish_step, update_wave.
  cbn [set_base base dcm].
  destruct (to_euler _) as [[r p] y].
  destruct (waves_off env); repeat split; reflexivity.
Qed.

Lemma V1_update_config {M X : Type} `{Matrix3f_ops M} `{Aircraft_ops M X}
    (env : Env) (input : sitl_input) (sst : Sailboat M X * V1.Statics) :
  steering_angle_max (fst (V1.update env input sst))
    = steering_angle_max (fst sst)
  /\ turning_circle (fst (V1.update env input sst)) = turning_circle (fst sst)
  /\ sail_area (fst (V1.update env input sst)) = sail_area (fst sst)
  /\ motor_connected (fst (V1.update env input sst))
     = motor_connected (fst sst).
Proof.
  unfold V1.update.
  destruct (V1_step_config env input (fst sst) (snd sst))
    as (H1 & H2 & H3 & H4 & _).
  destruct (V1.step env input (fst sst) (snd sst)) as [[s st] dt].
  cbn [fst snd] in *.
  destruct (finish_step_config env dt s) as (F1 & F2 & F3 & F4).
  rewrite F1, F2, F3, F4. repeat split; assumption.
Qed.

Lemma V2_update_config {M X : Type} `{Matrix3f_ops M} `{Aircraft_ops M X}
    (env : Env) (input : sitl_input) (s : Sailboat M X) :
  steering_angle_max (V2.update env input s) = steering_angle_max s
  /\ turning_circle (V2.update env input s) = turning_circle s
  /\ sail_area (V2.update env input s) = sail_area s
  /\ motor_connected (V2.update env input s) = motor_connected s.
Proof.
  unfold V2.update.
  destruct (V2_step_config env input s) as (H1 & H2 & H3 & H4 & _).
  destruct (V2.step env input s) as [s' dt].
  cbn [fst snd] in *.
  destruct (finish_step_config env dt s') as (F1 & F2 & F3 & F4).
  rewrite F1, F2, F3, F4. repeat split; assumption.
Qed.

(** X17.  A run never changes the constants of the boat: the maximum
    steering angle, the turning circle, the sail area and the motor flag
    are after any number of updates what the constructor set, in both
    versions. *)
Theorem run_keeps_configuration :
  forall (M X : Type) (mo : Matrix3f_ops M) (ao : Aircraft_ops M X)
         (env : Env) (inputs : list sitl_input)
         (s : Sailboat M X) (st : V1.Statics),
    let s1 := fst (V1.run env inputs (s, st)) in
    let s2 := V2.run env inputs s in
    (steering_angle_max s1 = steering_angle_max s
     /\ turning_circle s1 = turning_circle s
     /\ sail_area s1 = sail_area s
     /\ motor_connected s1 = motor_connected s)
    /\ (steering_angle_max s2 = steering_angle_max s
        /\ turning_circle s2 = turning_circle s
        /\ sail_area s2 = sail_area s
        /\ motor_connected s2 = motor_connected s).
Proof.
  intros M X mo ao env inputs s st. cbv zeta. split.
  - change s with (fst (s, st)) at 2 4 6 8.
    generalize (s, st). clear s st.
    induction inputs as [| i inputs IH]; intros sst.
    + repeat split; reflexivity.
    + simpl. destruct (IH (V1.update env i sst)) as (H1 & H2 & H3 & H4).
      destruct (V1_update_config env i sst) as (U1 & U2 & U3 & U4).
      unfold V1.run in *.
      rewrite H1, H2, H3, H4. repeat split; assumption.
  - revert s.
    induction inputs as [| i inputs IH]; intros s.
    + repeat split; reflexivity.
    + simpl. destruct (IH (V2.update env i s)) as (H1 & H2 & H3 & H4).
      destruct (V2_update_config env i s) as (U1 & U2 & U3 & U4).
      unfold V2.run in *.
      rewrite H1, H2, H3, H4. repeat split; assumption.
Qed.

(** ** The integrator *)

(** X18.  The sail, the hull and the throttle never move the boat
    vertically: in a step the vertical water-relative velocity changes by
    the wave heave times the time step and by nothing else, and the
    vertical velocity equals it, in both versions. *)
Theorem vertical_motion_is_heave :
  forall (M X : Type) (mo : Matrix3f_ops M) (ao : Aircraft_ops M X)
         (env : Env) (input : sitl_input) (s : Sailboat M X)
         (st : V1.Statics),
    let b0 := update_wind env input (base s) in
    let delta_time := IZR (frame_time_us b0) * 1.0e-6 in
    let b1 := base (fst (fst (V1.step env input s st))) in
    let b2 := base (fst (V2.step env input s)) in
    Vector3f.z (velocity_ef_water b1)
      = Vector3f.z (velocity_ef_water b0) + wave_heave s * delta_time
    /\ Vector3f.z (velocity_ef b1) = Vector3f.z (velocity_ef_water b1)
    /\ Vector3f.z (velocity_ef_water b2)
      = Vector3f.z (velocity_ef_water b0) + wave_heave s * delta_time
    /\ Vector3f.z (velocity_ef b2) = Vector3f.z (velocity_ef_water b2).
Proof.
  intros M X mo ao env input s st. cbv zeta.
  pose proof (tide_velocity_z env) as Htide.
  split; [| split; [| split]].
  - unfold V1.step. destruct (to_euler _) as [[r p] y].
    cbn [fst snd base set_base velocity_ef_water wave_heave
         Vector3f.add Vector3f.scale Vector3f.set_z Vector3f.z]. ring.
  - rewrite V1_step_velocity. cbn [Vector3f.add Vector3f.z].
    rewrite Htide. ring.
  - unfold V2.step.
    destruct (to_euler (normalize (rotate _ _))) as [[roll pitch] yaw].
    destruct (to_euler _) as [[r p] y].
    cbn [fst snd base set_base velocity_ef_water wave_heave
         Vector3f.add Vector3f.scale Vector3f.set_z Vector3f.z]. ring.
  - rewrite V2_step_velocity. cbn [Vector3f.add Vector3f.z].
    rewrite Htide. ring.
Qed.




(** X20.  When armed with a tide that is not numerically zero, the tide
    velocity is horizontal and its magnitude is the configured tide speed:
    x^2 + y^2 = speed^2. *)
Theorem tide_velocity_magnitude :
  forall (env : Env),
    get_soft_armed env = true ->
    is_zero (Tide.speed (tide (sitl env))) = false ->
    sq (Vector3f.x (tide_velocity_ef env))
    + sq (Vector3f.y (tide_velocity_ef env))
    = sq (Tide.speed (tide (sitl env)))
    /\ Vector3f.z (tide_velocity_ef env) = 0.
Proof.
  intros env Harmed Htide. split; [| apply tide_velocity_z].
  unfold tide_velocity_ef. rewrite Harmed, Htide.
  cbn [andb negb Vector3f.set_x Vector3f.set_y Vector3f.set_z Vector3f.zero
       Vector3f.x Vector3f.y Vector3f.z].
  pose proof (sin2_cos2 (radians (Tide.direction (tide (sitl env))))) as Hunit.
  unfold Rsqr in Hunit. unfold sq.
  set (sn := sin (radians (Tide.direction (tide (sitl env))))) in *.
  set (cs := cos (radians (Tide.direction (tide (sitl env))))) in *.
  set (v := Tide.speed (tide (sitl env))).
  replace (- cs * v * (- cs * v) + - sn * v * (- sn * v))
    with ((sn * sn + cs * cs) * (v * v)) by ring.
  rewrite Hunit. ring.
Qed.

Lemma tide_velocity_magnitude_witness :
  sq (Vector3f.x (tide_velocity_ef Plain.env_armed))
  + sq (Vector3f.y (tide_velocity_ef Plain.env_armed))
  = sq (Tide.speed (tide (sitl Plain.env_armed))).
Proof.
  destruct (tide_velocity_magnitude Plain.env_armed) as (Hmag & _).
  - reflexivity.
  - apply is_zero_false. cbn [Plain.env_armed sitl tide Tide.speed].
    rewrite Rabs_pos_eq by lra. unfold FLT_EPSILON. lra.
  - exact Hmag.
Defined.

(** X21.  In the second version the attitude after a step is rebuilt from
    a roll angle of at most 45 degrees either way: the heel angle
    constrain(force_heel * 0.05, -45, 45) of the step, in radians, with
    the pitch and the yaw that [to_euler] gives for the attitude rotated
    by the gyro of the step over the time step and normalised. *)
Theorem heel_angle_bounded :
  forall (M X : Type) (mo : Matrix3f_ops M) (ao : Aircraft_ops M X)
         (env : Env) (input : sitl_input) (s : Sailboat M X),
    let b0 := update_wind env input (base s) in
    let delta_time := IZR (frame_time_us b0) * 1.0e-6 in
    let b' := base (fst (V2.step env input s)) in
    let heel_angle :=
      constrain_float
        (force_heel (V2.sail_forces env input (set_base s b0)) * 0.05)
        (-45) 45 in
    let rotated :=
      normalize (rotate (dcm b0) (Vector3f.scale (gyro b') delta_time)) in
    let pitch := snd (fst (to_euler rotated)) in
    let yaw := snd (to_euler rotated) in
    -45 <= heel_angle <= 45
    /\ dcm b' = normalize (from_euler (radians heel_angle) pitch yaw).
Proof.
  intros M X mo ao env input s. cbv zeta.
  split; [apply constrain_float_range; lra |].
  unfold V2.step.
  destruct (to_euler (normalize (rotate _ _))) as [[roll pitch] yaw] eqn:Hrot.
  destruct (to_euler (normalize (from_euler _ _ _))) as [[r p] y].
  cbn [fst snd base set_base dcm gyro].
  match goal with
  | |- context [to_euler ?m] =>
      replace (to_euler m) with (roll, pitch, yaw)
        by (symmetry; exact Hrot)
  end.
  reflexivity.
Qed.

Lemma Vector3f_add_scale_zero (v a : Vector3f) :
  Vector3f.add v (Vector3f.scale a 0) = v.
Proof.
  destruct v as [vx vy vz]. unfold Vector3f.add, Vector3f.scale.
  cbn [Vector3f.x Vector3f.y Vector3f.z]. f_equal; ring.
Qed.

(** X22.  A step with frame time 0 moves nothing: the water-relative
    velocity and the position are those left by [update_wind], and the
    first version's [update_time_s] does not advance, in both versions. *)
Theorem zero_frame_time_no_motion :
  forall (M X : Type) (mo : Matrix3f_ops M) (ao : Aircraft_ops M X)
         (env : Env) (input : sitl_input) (s : Sailboat M X)
         (st : V1.Statics),
    let b0 := update_wind env input (base s) in
    frame_time_us b0 = 0%Z ->
    let r1 := V1.step env input s st in
    let r2 := V2.step env input s in
    velocity_ef_water (base (fst (fst r1))) = velocity_ef_water b0
    /\ position (base (fst (fst r1))) = position b0
    /\ V1.update_time_s (snd (fst r1)) = V1.update_time_s st
    /\ velocity_ef_water (base (fst r2)) = velocity_ef_water b0
    /\ position (base (fst r2)) = position b0.
Proof.
  intros M X mo ao env input s st b0 Hframe. cbv zeta. subst b0.
  split; [| split; [| split; [| split]]].
  - unfold V1.step. destruct (to_euler _) as [[r p] y].
    cbn [fst snd base set_base velocity_ef_water]. rewrite Hframe.
    rewrite Rmult_0_l. apply Vector3f_add_scale_zero.
  - unfold V1.step. destruct (to_euler _) as [[r p] y].
    cbn [fst snd base set_base position]. rewrite Hframe.
    rewrite Rmult_0_l. apply Vector3f_add_scale_zero.
  - destruct (V1_step_timers env input s st) as (Htime & _).
    rewrite Htime. unfold V1.step. destruct (to_euler _) as [[r p] y].
    cbn [fst snd base set_base]. rewrite Hframe. ring.
  - unfold V2.step.
    destruct (to_euler (normalize (rotate _ _))) as [[roll pitch] yaw].
    destruct (to_euler _) as [[r p] y].
    cbn [fst snd base set_base velocity_ef_water]. rewrite Hframe.
    rewrite Rmult_0_l. apply Vector3f_add_scale_zero.
  - unfold V2.step.
    destruct (to_euler (normalize (rotate _ _))) as [[roll pitch] yaw].
    destruct (to_euler _) as [[r p] y].
    cbn [fst snd base set_base position]. rewrite Hframe.
    rewrite Rmult_0_l. apply Vector3f_add_scale_zero.
Qed.

Lemma V1_wind_speed_nonneg {M X : Type} `{Matrix3f_ops M}
    (env : Env) (input : sitl_input) (s : Sailboat M X) :
  0 <= wind_apparent_speed (V1.sail_forces env input s).
Proof.
  unfold V1.sail_forces.
  destruct (V1.calc_lift_and_drag _ _ _) as [lift drag].
  cbn [wind_apparent_speed]. apply sqrt_pos.
Qed.

Lemma V2_wind_speed_nonneg {M X : Type} `{Matrix3f_ops M}
    (env : Env) (input : sitl_input) (s : Sailboat M X) :
  0 <= wind_apparent_speed (V2.sail_forces env input s).
Proof.
  unfold V2.sail_forces.
  destruct (to_euler _) as [[roll pitch] yaw].
  destruct (V2.calc_lift_and_drag _ _ _) as [lift drag].
  cbn [wind_apparent_speed]. apply sqrt_pos.
Qed.

(** X23.  After a step the simulated RPM and airspeed sensors read the
    same value, the apparent wind speed of the step, which is never
    negative, in both versions. *)
Theorem wind_sensors_agree :
  forall (M X : Type) (mo : Matrix3f_ops M) (ao : Aircraft_ops M X)
         (env : Env) (input : sitl_input) (s : Sailboat M X)
         (st : V1.Statics),
    let s0 := set_base s (update_wind env input (base s)) in
    let b1 := base (fst (fst (V1.step env input s st))) in
    let b2 := base (fst (V2.step env input s)) in
    rpm0 b1 = wind_apparent_speed (V1.sail_forces env input s0)
    /\ airspeed_pitot b1 = rpm0 b1
    /\ 0 <= rpm0 b1
    /\ rpm0 b2 = wind_apparent_speed (V2.sail_forces env input s0)
    /\ airspeed_pitot b2 = rpm0 b2
    /\ 0 <= rpm0 b2.
Proof.
  intros M X mo ao env input s st. cbv zeta.
  assert (H1 : rpm0 (base (fst (fst (V1.step env input s st))))
               = wind_apparent_speed
                   (V1.sail_forces env input
                      (set_base s (update_wind env input (base s))))
               /\ airspeed_pitot (base (fst (fst (V1.step env input s st))))
                  = rpm0 (base (fst (fst (V1.step env input s st))))).
  { unfold V1.step. destruct (to_euler _) as [[r p] y].
    split; reflexivity. }
  assert (H2 : rpm0 (base (fst (V2.step env input s)))
               = wind_apparent_speed
                   (V2.sail_forces env input
                      (set_base s (update_wind env input (base s))))
               /\ airspeed_pitot (base (fst (V2.step env input s)))
                  = rpm0 (base (fst (V2.step env input s)))).
  { unfold V2.step.
    destruct (to_euler (normalize (rotate _ _))) as [[roll pitch] yaw].
    destruct (to_euler _) as [[r p] y].
    split; reflexivity. }
  destruct H1 as [H1a H1b]. destruct H2 as [H2a H2b].
  split; [exact H1a |]. split; [exact H1b |].
  split; [rewrite H1a; apply V1_wind_speed_nonneg |].
  split; [exact H2a |]. split; [exact H2b |].
  rewrite H2a. apply V2_wind_speed_nonneg.
Qed.

Lemma zero_frame_time_no_motion_witness :
  position
    (base (fst (fst (V1.step Plain.env_armed Plain.input0
                       (V1.construct "sailboat"
                          (mk_Aircraft Plain.identity Vector3f.zero
                             Vector3f.zero (Vector3f.mk 1 2 0)
                             (Vector3f.mk 1 2 0) Vector3f.zero
                             (Vector3f.mk 3 4 0) 0 0 1 0 0%Z)
                          Vector3f.zero 0 0)
                       Plain.statics0))))
  = Vector3f.mk 3 4 0.
Proof.
  destruct (zero_frame_time_no_motion _ _ _ _ Plain.env_armed Plain.input0
              (V1.construct "sailboat"
                 (mk_Aircraft Plain.identity Vector3f.zero
                    Vector3f.zero (Vector3f.mk 1 2 0)
                    (Vector3f.mk 1 2 0) Vector3f.zero
                    (Vector3f.mk 3 4 0) 0 0 1 0 0%Z)
                 Vector3f.zero 0 0)
              Plain.statics0) as (_ & Hpos & _).
  - reflexivity.
  - exact Hpos.
Defined.

(** X24.  Positive steering at positive speed turns the boat one way only:
    with a maximum steering angle of at most 90 degrees and a positive
    turning circle, for a steering in (0,1] and a speed above zero (both
    not numerically zero) the turn circle, the yaw rate and the lateral
    acceleration are positive. *)
Theorem positive_steering_positive_yaw :
  forall (M X : Type) (s : Sailboat M X) (steering speed : R),
    0 < steering_angle_max s <= 90 ->
    0 < turning_circle s ->
    is_zero steering = false -> 0 < steering <= 1 ->
    is_zero speed = false -> 0 < speed ->
    0 < get_turn_circle s steering
    /\ 0 < get_yaw_rate s steering speed
    /\ 0 < get_lat_accel s steering speed.
Proof.
  intros M X s steering speed Hmax Hcircle Hz1 Hsteer Hz2 Hspeed.
  pose proof (radians_quadrant _ Hmax) as Htheta.
  destruct (sin_part steering (radians (steering_angle_max s)))
    as [Hden _]; [assumption | assumption |].
  destruct (sin_part 1 (radians (steering_angle_max s)))
    as [Hnum _]; [assumption | lra |].
  rewrite Rmult_1_l in Hnum.
  assert (Hd : 0 < get_turn_circle s steering).
  { rewrite get_turn_circle_nonzero by assumption.
    rewrite radians_scale. apply Rdiv_lt_0_compat; [| assumption].
    apply Rmult_lt_0_compat; assumption. }
  assert (Hyaw : get_yaw_rate s steering speed
                 = 360 * speed / (PI * get_turn_circle s steering)).
  { unfold get_yaw_rate. rewrite Hz1, Hz2. simpl. unfold M_PI.
    field; repeat split; try lra; apply PI_neq0. }
  assert (Hrate : 0 < get_yaw_rate s steering speed).
  { rewrite Hyaw. apply Rdiv_lt_0_compat; [lra |].
    apply Rmult_lt_0_compat; [apply PI_RGT_0 | assumption]. }
  split; [exact Hd |]. split; [exact Hrate |].
  unfold get_lat_accel, radians, DEG_TO_RAD, M_PI.
  apply Rmult_lt_0_compat; [| assumption].
  apply Rmult_lt_0_compat; [assumption |].
  apply Rdiv_lt_0_compat; [apply PI_RGT_0 | lra].
Qed.

Lemma positive_steering_positive_yaw_witness :
  0 < get_yaw_rate Plain.boat1 0.5 2.
Proof.
  destruct (positive_steering_positive_yaw _ _ Plain.boat1 0.5 2)
    as (_ & Hyaw & _).
  - simpl. lra.
  - simpl. lra.
  - apply is_zero_half.
  - lra.
  - apply is_zero_two.
  - lra.
  - exact Hyaw.
Defined.
